(** * Health-monitoring engine of the AWS traffic controller

    A shallow embedding of [AWSTrafficController] (src/main.py): the health
    record store, the per-endpoint body of the monitoring loop, alerting and
    failover, registration, and the status aggregation, followed by the
    properties of the engine.

    Conventions of the embedding.
    - Python [int] is [Z]; Python [float] is an IEEE 754 binary64 value,
      [spec_float] with [prec = 53] and [emax = 1024]; Python [str] is
      [string]; a [dict] keyed by endpoint is a [gmap string _]; the list of
      alerts is a [list].
    - A [datetime] is the number of microseconds since an arbitrary epoch, and
      a [timedelta] is a difference of two of them.  Every clock reading
      ([datetime.now()]) is an input of the operation that takes it; the
      readings taken inside one operation are identified.
    - A method that mutates [self] takes the controller and returns the new
      one.  The dictionary stored under an endpoint is shared between the
      store and the loop body, so every mutation of it is written back under
      its key.
    - The statuses are the string constants of the source.  The order in
      which a dictionary is iterated is not part of the model: the code
      modelled here depends on it only through tests of emptiness and counts.
    - [controller] is the internal state of an object, and the functions on
      it describe the methods on an object that has this state, where the
      [try] block of a method runs to its end.  The constructor can also
      return before it sets the state up; [instance] and the module
      [AWSTrafficController] describe the constructor and the methods on any
      object, with the results of the handlers. *)

From Stdlib Require Import ZArith String Ascii List Bool Lia.
From Stdlib Require Import Floats.SpecFloat.
From stdpp Require Import base option list gmap strings pretty.

Local Open Scope string_scope.
Local Open Scope list_scope.
Local Open Scope Z_scope.

(** ** Data model *)

Abbreviation datetime := Z (only parsing).
Abbreviation float := spec_float (only parsing).

(** [@dataclass HealthCheck] *)
Record HealthCheck := mkHealthCheck {
  endpoint : string;
  expected_status : Z;
  timeout : Z;
  interval : Z;
  failure_threshold : Z
}.

(** [@dataclass TrafficRule] *)
Record TrafficRule := mkTrafficRule {
  source_pattern : string;
  target : string;
  weight : Z;
  condition : option string
}.

(** [@dataclass AutoScaleRule] *)
Record AutoScaleRule := mkAutoScaleRule {
  metric : string;
  threshold : float;
  action : string;
  cooldown : Z
}.

(** The dictionary kept per endpoint in [self.health_checks].  The keys
    ['response_time'] and ['last_error'] are absent until first written. *)
Record health_data := mkHealthData {
  config : HealthCheck;
  status : string;
  last_check : option datetime;
  failures : Z;
  success_count : Z;
  created_at : datetime;
  response_time : option float;
  last_error : option string
}.

(** One entry of [self.alerts].  ['failover_success'] is written into the
    dictionary right after it has been appended; the record holds the entry
    as it is once [_handle_unhealthy_endpoint] has returned. *)
Record alert := mkAlert {
  alert_id : Z;
  alert_timestamp : datetime;
  alert_type : string;
  alert_endpoint : string;
  alert_status : string;
  alert_failures : Z;
  alert_last_error : string;
  alert_action_taken : string;
  alert_failover_success : bool
}.

(** [self.metrics] *)
Record metrics_t := mkMetrics {
  total_requests : Z;
  successful_health_checks : Z;
  failed_health_checks : Z;
  traffic_routes_created : Z;
  auto_scale_triggers : Z
}.

(** The internal state of [AWSTrafficController]. *)
Record controller := mkController {
  health_checks : gmap string health_data;
  traffic_rules : list TrafficRule;
  monitoring_active : bool;
  auto_scale_rules : list AutoScaleRule;
  alerts : list alert;
  metrics : metrics_t;
  mock_mode : bool
}.

(** The internal state as [__init__] sets it up when it reaches that block;
    [AWSTrafficController.__init__] says when it does. *)
Definition init_controller (mock : bool) : controller :=
  {| health_checks := ∅;
     traffic_rules := [];
     monitoring_active := false;
     auto_scale_rules := [];
     alerts := [];
     metrics := mkMetrics 0 0 0 0 0;
     mock_mode := mock |}.

(** Field updates. *)
Definition set_health_checks (self : controller) (h : gmap string health_data) : controller :=
  {| health_checks := h;
     traffic_rules := traffic_rules self;
     monitoring_active := monitoring_active self;
     auto_scale_rules := auto_scale_rules self;
     alerts := alerts self;
     metrics := metrics self;
     mock_mode := mock_mode self |}.

Definition set_alerts (self : controller) (l : list alert) : controller :=
  {| health_checks := health_checks self;
     traffic_rules := traffic_rules self;
     monitoring_active := monitoring_active self;
     auto_scale_rules := auto_scale_rules self;
     alerts := l;
     metrics := metrics self;
     mock_mode := mock_mode self |}.

Definition set_metrics (self : controller) (m : metrics_t) : controller :=
  {| health_checks := health_checks self;
     traffic_rules := traffic_rules self;
     monitoring_active := monitoring_active self;
     auto_scale_rules := auto_scale_rules self;
     alerts := alerts self;
     metrics := m;
     mock_mode := mock_mode self |}.

(** [self.health_checks[endpoint] = hd], also the write-back of a mutation of
    the dictionary stored under [endpoint]. *)
Definition store (self : controller) (ep : string) (hd : health_data) : controller :=
  set_health_checks self (<[ep := hd]> (health_checks self)).

Definition incr_successful (m : metrics_t) : metrics_t :=
  mkMetrics (total_requests m) (successful_health_checks m + 1)
            (failed_health_checks m) (traffic_routes_created m)
            (auto_scale_triggers m).

Definition incr_failed (m : metrics_t) : metrics_t :=
  mkMetrics (total_requests m) (successful_health_checks m)
            (failed_health_checks m + 1) (traffic_routes_created m)
            (auto_scale_triggers m).

Definition incr_total_requests (m : metrics_t) : metrics_t :=
  mkMetrics (total_requests m + 1) (successful_health_checks m)
            (failed_health_checks m) (traffic_routes_created m)
            (auto_scale_triggers m).

(** ** Registration: [setup_health_check] *)

(** [endpoint.startswith(('http://', 'https://'))] *)
Definition has_scheme (ep : string) : bool :=
  String.prefix "http://" ep || String.prefix "https://" ep.

Definition normalize_endpoint (ep : string) : string :=
  if has_scheme ep then ep else "https://" +:+ ep.

(** The dictionary returned by [setup_health_check]: the success shape, or
    the shape built by the exception handler. *)
Inductive setup_result :=
  | SetupSuccess (message ep : string) (itv : Z) (active : bool)
  | SetupError (message : string).

Definition setup_result_status (r : setup_result) : string :=
  match r with
  | SetupSuccess _ _ _ _ => "success"
  | SetupError _ => "error"
  end.

(** The record written at registration. *)
Definition fresh_health_data (ep : string) (itv : Z) (now : datetime) : health_data :=
  {| config := mkHealthCheck ep 200 10 itv 3;
     status := "initializing";
     last_check := None;
     failures := 0;
     success_count := 0;
     created_at := now;
     response_time := None;
     last_error := None |}.

(** [setup_health_check(endpoint, interval)] on an object that has its
    internal state: no statement of the [try] block then raises on a string
    and an integer.  The result of the handler, built when the state is
    missing, is in [AWSTrafficController.setup_health_check].  Starting the
    monitoring thread is the switch of [monitoring_active]; the thread's work
    is [monitor_endpoint] below. *)
Definition setup_health_check (self : controller) (ep : string) (itv : Z)
    (now : datetime) : controller * setup_result :=
  let ep := normalize_endpoint ep in
  let self1 := store self ep (fresh_health_data ep itv now) in
  let self2 :=
    {| health_checks := health_checks self1;
       traffic_rules := traffic_rules self1;
       monitoring_active := true;
       auto_scale_rules := auto_scale_rules self1;
       alerts := alerts self1;
       metrics := incr_total_requests (metrics self1);
       mock_mode := mock_mode self1 |} in
  (self2,
   SetupSuccess ("Health check configured for " +:+ ep) ep itv
                (monitoring_active self2)).

(** ** Failover and alerting *)

(** [_trigger_failover(failed_endpoint)].  The list of healthy alternatives
    is only tested for emptiness; with real clients the body of the guarded
    block is [pass], so both modes return [True] when it is not empty. *)
Definition healthy_endpoints (self : controller) (failed_endpoint : string) : list string :=
  (filter (λ kv : string * health_data,
             status kv.2 = "healthy" ∧ kv.1 ≠ failed_endpoint)
          (map_to_list (health_checks self))).*1.

Definition _trigger_failover (self : controller) (failed_endpoint : string) : bool :=
  match healthy_endpoints self failed_endpoint with
  | [] => false
  | _ :: _ => true
  end.

(** [self.alerts[-100:]] *)
Definition last_100 (l : list alert) : list alert :=
  drop (length l - 100)%nat l.

(** The alert dictionary of [_handle_unhealthy_endpoint], with the
    ['failover_success'] entry it receives once the failover has been tried. *)
Definition new_alert (self : controller) (ep : string) (hd : health_data)
    (now : datetime) : alert :=
  {| alert_id := Z.of_nat (length (alerts self)) + 1;
     alert_timestamp := now;
     alert_type := "endpoint_unhealthy";
     alert_endpoint := ep;
     alert_status := status hd;
     alert_failures := failures hd;
     alert_last_error := default "Unknown error" (last_error hd);
     alert_action_taken := "failover_attempted";
     alert_failover_success := _trigger_failover self ep |}.

(** [_handle_unhealthy_endpoint(endpoint, health_data)]: the alert is
    appended, the failover tried, and the log cut to its last 100 entries
    when it has grown beyond. *)
Definition _handle_unhealthy_endpoint (self : controller) (ep : string)
    (hd : health_data) (now : datetime) : controller :=
  let l := alerts self ++ [new_alert self ep hd now] in
  set_alerts self (if 100 <? Z.of_nat (length l) then last_100 l else l).

(** ** The monitoring loop: [_monitor_health] *)

(** What [requests.get] does for one probe: it returns a response, of which
    the loop reads the status code and for which it measures
    [round(response_time, 2)], or it raises. *)
Inductive outcome :=
  | Response (status_code : Z) (rt : float)
  | RaiseTimeout
  | RaiseConnectionError
  | RaiseException (message : string).

(** [timedelta.seconds] of a difference of [d] microseconds: a timedelta is
    kept normalised as days, seconds in [0, 86400) and microseconds in
    [0, 10^6), and [.seconds] reads the middle component only. *)
Definition td_seconds (d : Z) : Z := (d / 1000000) mod 86400.

(** The test that skips an endpoint checked less than [interval] ago. *)
Definition due (hd : health_data) (now : datetime) : bool :=
  match last_check hd with
  | None => true
  | Some t => negb (td_seconds (now - t) <? interval (config hd))
  end.

(** Writes to single keys of the dictionary of an endpoint. *)
Definition set_status (hd : health_data) (st : string) : health_data :=
  mkHealthData (config hd) st (last_check hd) (failures hd) (success_count hd)
               (created_at hd) (response_time hd) (last_error hd).

Definition set_last_check (hd : health_data) (t : datetime) : health_data :=
  mkHealthData (config hd) (status hd) (Some t) (failures hd) (success_count hd)
               (created_at hd) (response_time hd) (last_error hd).

Definition set_failures (hd : health_data) (n : Z) : health_data :=
  mkHealthData (config hd) (status hd) (last_check hd) n (success_count hd)
               (created_at hd) (response_time hd) (last_error hd).

Definition set_success_count (hd : health_data) (n : Z) : health_data :=
  mkHealthData (config hd) (status hd) (last_check hd) (failures hd) n
               (created_at hd) (response_time hd) (last_error hd).

Definition set_response_time (hd : health_data) (rt : float) : health_data :=
  mkHealthData (config hd) (status hd) (last_check hd) (failures hd)
               (success_count hd) (created_at hd) (Some rt) (last_error hd).

Definition set_last_error (hd : health_data) (err : string) : health_data :=
  mkHealthData (config hd) (status hd) (last_check hd) (failures hd)
               (success_count hd) (created_at hd) (response_time hd) (Some err).

(** The writes of the branch of an expected status code. *)
Definition on_success (hd : health_data) (rt : float) : health_data :=
  set_response_time
    (set_success_count (set_failures (set_status hd "healthy") 0)
                       (success_count hd + 1))
    rt.

(** The writes of an exception handler: [failures += 1], the status, the
    error text. *)
Definition on_exception (hd : health_data) (st err : string) : health_data :=
  set_last_error (set_status (set_failures hd (failures hd + 1)) st) err.

(** The body of the loop for one endpoint once the probe is made: the [try]
    block from [requests.get] on, with its three handlers.  Only the [try]
    block, that is a received response, writes [last_check]. *)
Definition probe_endpoint (self : controller) (ep : string) (hd : health_data)
    (now : datetime) (o : outcome) : controller :=
  let cfg := config hd in
  match o with
  | Response status_code rt =>
      if status_code =? expected_status cfg then
        let hd1 := on_success hd rt in
        let self1 := set_metrics (store self ep hd1) (incr_successful (metrics self)) in
        store self1 ep (set_last_check hd1 now)
      else
        let hd1 :=
          set_last_error (set_failures hd (failures hd + 1))
                         ("HTTP " +:+ pretty status_code) in
        if failures hd1 >=? failure_threshold cfg then
          let hd2 := set_status hd1 "unhealthy" in
          let self1 := _handle_unhealthy_endpoint (store self ep hd2) ep hd2 now in
          store self1 ep (set_last_check hd2 now)
        else
          let hd2 := set_status hd1 "degraded" in
          store self ep (set_last_check hd2 now)
  | RaiseTimeout =>
      let hd1 := on_exception hd "timeout" "Request timeout" in
      set_metrics (store self ep hd1) (incr_failed (metrics self))
  | RaiseConnectionError =>
      let hd1 := on_exception hd "connection_error" "Connection failed" in
      set_metrics (store self ep hd1) (incr_failed (metrics self))
  | RaiseException message =>
      let hd1 := on_exception hd "error" message in
      let self1 := set_metrics (store self ep hd1) (incr_failed (metrics self)) in
      if failures hd1 >=? failure_threshold cfg then
        _handle_unhealthy_endpoint self1 ep hd1 now
      else self1
  end.

(** One visit of the loop to [ep]: nothing happens when the endpoint is not
    due, otherwise the probe is made and its outcome [o] handled. *)
Definition monitor_endpoint (self : controller) (ep : string)
    (now : datetime) (o : outcome) : controller :=
  match health_checks self !! ep with
  | None => self
  | Some hd => if due hd now then probe_endpoint self ep hd now o else self
  end.

(** ** Traffic rules, scaling rules, reset *)

(** [route_traffic(source, target, weight)], state part. *)
Definition route_traffic (self : controller) (source tgt : string) (w : Z) : controller :=
  let w := Z.max 0 (Z.min 100 w) in
  {| health_checks := health_checks self;
     traffic_rules := traffic_rules self ++ [mkTrafficRule source tgt w None];
     monitoring_active := monitoring_active self;
     auto_scale_rules := auto_scale_rules self;
     alerts := alerts self;
     metrics := mkMetrics (total_requests (metrics self))
                          (successful_health_checks (metrics self))
                          (failed_health_checks (metrics self))
                          (traffic_routes_created (metrics self) + 1)
                          (auto_scale_triggers (metrics self));
     mock_mode := mock_mode self |}.

(** [setup_auto_scaling(metric, threshold, action)], state part. *)
Definition setup_auto_scaling (self : controller) (m : string) (th : float)
    (act : string) : controller :=
  {| health_checks := health_checks self;
     traffic_rules := traffic_rules self;
     monitoring_active := monitoring_active self;
     auto_scale_rules := auto_scale_rules self ++ [mkAutoScaleRule m th act 300];
     alerts := alerts self;
     metrics := mkMetrics (total_requests (metrics self))
                          (successful_health_checks (metrics self))
                          (failed_health_checks (metrics self))
                          (traffic_routes_created (metrics self))
                          (auto_scale_triggers (metrics self) + 1);
     mock_mode := mock_mode self |}.

(** [clear_all()], state part. *)
Definition clear_all (self : controller) : controller :=
  {| health_checks := ∅;
     traffic_rules := [];
     monitoring_active := monitoring_active self;
     auto_scale_rules := [];
     alerts := [];
     metrics := mkMetrics (total_requests (metrics self) + 1) 0 0 0 0;
     mock_mode := mock_mode self |}.

(** ** Runs of the controller *)

(** The operations that change the state: the calls of the front ends and
    the visits of the monitoring loop.  A tick of the loop is a sequence of
    visits, one per endpoint of the store. *)
Inductive event :=
  | Setup (ep : string) (itv : Z) (now : datetime)
  | Visit (ep : string) (now : datetime) (o : outcome)
  | Route (source tgt : string) (w : Z)
  | Scale (m : string) (th : float) (act : string)
  | Clear.

Definition step (self : controller) (e : event) : controller :=
  match e with
  | Setup ep itv now => (setup_health_check self ep itv now).1
  | Visit ep now o => monitor_endpoint self ep now o
  | Route source tgt w => route_traffic self source tgt w
  | Scale m th act => setup_auto_scaling self m th act
  | Clear => clear_all self
  end.

Definition run (self : controller) (es : list event) : controller :=
  fold_left step es self.

(** The states a controller can be in. *)
Definition reachable (self : controller) : Prop :=
  ∃ mock es, self = run (init_controller mock) es.

(** ** Status aggregation *)

(** *** Floating-point arithmetic of the uptime percentage *)

Definition prec : Z := 53.
Definition emax : Z := 1024.

(** [a / b] on integers: the quotient correctly rounded to binary64 (ties to
    even).  [None] stands for the exception raised: [ZeroDivisionError], or
    [OverflowError] when the quotient is too large for a float. *)
Definition int_true_divide (a b : Z) : option float :=
  if b =? 0 then None
  else if a =? 0 then Some (S754_zero (b <? 0))
  else
    let '(q, e, l) := SFdiv_core_binary prec emax (Z.abs a) 0 (Z.abs b) 0 in
    match binary_round_aux prec emax (xorb (a <? 0) (b <? 0)) q e l with
    | S754_infinity _ => None
    | x => Some x
    end.

(** The float [100.0], to which the integer [100] is converted. *)
Definition float_100 : float := binary_normalize prec emax 100 0 false.

(** The number of tenths nearest to [m * 2^e], ties to even. *)
Definition round_tenths (m : positive) (e : Z) : Z :=
  match e with
  | Zneg p =>
      let num := 10 * Zpos m in
      let den := 2 ^ Zpos p in
      let q := num / den in
      let r := num mod den in
      match 2 * r ?= den with
      | Lt => q
      | Gt => q + 1
      | Eq => if Z.even q then q else q + 1
      end
  | _ => 10 * Zpos m * 2 ^ e
  end.

(** [f"{x:.1f}"]: the decimal with one fractional digit nearest to the exact
    value of the float, ties to even. *)
Definition format_1f (x : float) : string :=
  match x with
  | S754_nan => "nan"
  | S754_infinity s => if s then "-inf" else "inf"
  | S754_zero s => if s then "-0.0" else "0.0"
  | S754_finite s m e =>
      let t := round_tenths m e in
      (if s then "-" else "") +:+ pretty (t / 10) +:+ "." +:+ pretty (t mod 10)
  end.

(** [_calculate_uptime(health_data)].  The bare [except] turns an exception
    of the division into ['N/A']. *)
Definition _calculate_uptime (hd : health_data) : string :=
  let total_checks := success_count hd + failures hd in
  if total_checks =? 0 then "N/A"
  else
    match int_true_divide (success_count hd) total_checks with
    | None => "N/A"
    | Some ratio => format_1f (SFmul prec emax ratio float_100) +:+ "%"
    end.

(** *** [get_status] *)

(** [str.lower()] on the ASCII letters; bytes outside ASCII are kept.  On
    ASCII text this is [str.lower()]; on text with cased letters outside
    ASCII, [str.lower()] folds those as well. *)
Definition lower_ascii (c : ascii) : ascii :=
  let n := nat_of_ascii c in
  if ((65 <=? n) && (n <=? 90))%nat then ascii_of_nat (n + 32) else c.

Fixpoint lower (s : string) : string :=
  match s with
  | EmptyString => EmptyString
  | String c s' => String (lower_ascii c) (lower s')
  end.

(** [sub in s] *)
Fixpoint contains (sub s : string) : bool :=
  String.prefix sub s ||
  match s with
  | EmptyString => false
  | String _ s' => contains sub s'
  end.

(** Alerts counted as recent at time [now]:
    [(datetime.now() - a['timestamp']).seconds < 3600]. *)
Definition recent_alerts (self : controller) (now : datetime) : list alert :=
  filter (λ a, td_seconds (now - alert_timestamp a) < 3600) (alerts self).

(** The entry of an endpoint in the result of a query with a target. *)
Record endpoint_report := mkReport {
  rep_status : string;
  rep_last_check : option datetime;
  rep_failures : Z;
  rep_success_count : Z;
  rep_response_time : option float;
  rep_last_error : option string;
  rep_uptime_percentage : string
}.

Definition report (hd : health_data) : endpoint_report :=
  {| rep_status := status hd;
     rep_last_check := last_check hd;
     rep_failures := failures hd;
     rep_success_count := success_count hd;
     rep_response_time := response_time hd;
     rep_last_error := last_error hd;
     rep_uptime_percentage := _calculate_uptime hd |}.

(** The entry of an endpoint in the system summary. *)
Record endpoint_summary := mkSummary {
  sum_status : string;
  sum_response_time : option float;
  sum_uptime : string
}.

Definition summary (hd : health_data) : endpoint_summary :=
  mkSummary (status hd) (response_time hd) (_calculate_uptime hd).

(** The system summary, without its ['timestamp'] and
    ['avg_response_time_ms'] entries. *)
Record system_status := mkSystemStatus {
  overall_status : string;
  total_endpoints : Z;
  healthy_endpoints_count : Z;
  traffic_rules_count : Z;
  auto_scale_rules_count : Z;
  sys_monitoring_active : bool;
  recent_alerts_count : Z;
  sys_metrics : metrics_t;
  mode : string;
  endpoints : gmap string endpoint_summary
}.

Inductive status_result :=
  | TargetStatus (tgt : string) (matches : Z) (results : gmap string endpoint_report)
  | StatusError (message : string)
  | SystemStatus (s : system_status).

Definition dquote : string := String "034"%char EmptyString.

(** [get_status(target)] at time [now] on an object that has its internal
    state; [None] and the empty string are the falsy targets.  The result of
    the generic handler, built when the state is missing, is in
    [AWSTrafficController.get_status]. *)
Definition get_status (self : controller) (tgt : option string)
    (now : datetime) : status_result :=
  match tgt with
  | Some (String c t) =>
      let tgt := String c t in
      let matching_endpoints :=
        filter (λ kv : string * health_data,
                  contains (lower tgt) (lower kv.1) = true)
               (health_checks self) in
      if decide (matching_endpoints = ∅) then
        StatusError ("No endpoints found matching " +:+ dquote +:+ tgt +:+ dquote)
      else
        TargetStatus tgt (Z.of_nat (size matching_endpoints))
                     (report <$> matching_endpoints)
  | _ =>
      let total := Z.of_nat (size (health_checks self)) in
      let healthy :=
        Z.of_nat (size (filter (λ kv : string * health_data,
                                  status kv.2 = "healthy")
                               (health_checks self))) in
      SystemStatus
        {| overall_status :=
             if (healthy =? total) && (0 <? total) then "healthy" else "degraded";
           total_endpoints := total;
           healthy_endpoints_count := healthy;
           traffic_rules_count := Z.of_nat (length (traffic_rules self));
           auto_scale_rules_count := Z.of_nat (length (auto_scale_rules self));
           sys_monitoring_active := monitoring_active self;
           recent_alerts_count := Z.of_nat (length (recent_alerts self now));
           sys_metrics := metrics self;
           mode := if mock_mode self then "MOCK" else "LIVE";
           endpoints := summary <$> health_checks self |}
  end.

(** ** The controller object and its methods *)


(** An object of the class after [__init__].  [State self] has the
    attributes of the block of the internal state ([health_checks],
    [traffic_rules], [monitoring_active], [auto_scale_rules], [alerts],
    [metrics]).  [NoState] has none of them: the constructor has returned from
    the handler of the default credentials, after [_create_mock_clients], so
    the object has the clients set to [None] and [mock_mode = True] only. *)
Inductive instance :=
  | NoState
  | State (self : controller).


(** [str(e)] of the [AttributeError] that the read of a missing attribute
    raises. *)
Definition no_attribute (name : string) : string :=
  "'AWSTrafficController' object has no attribute '" +:+ name +:+ "'".

(** The dictionary returned by [route_traffic]: the success shape, or the
    shape built by an exception handler. *)
Inductive route_result :=
  | RouteSuccess (message : string) (rule_id : Z) (rule : TrafficRule)
  | RouteError (message : string).

(** The dictionary returned by [clear_all]. *)
Inductive clear_result :=
  | ClearSuccess (message : string)
  | ClearError (message : string).

(** The methods as they answer on any object.  On [State self] the [try]
    block runs to its end, as the functions on [controller] above describe;
    on [NoState] its first read of an attribute of the internal state raises
    [AttributeError], and the handler of the method builds the result. *)
Module AWSTrafficController.


(** [setup_health_check(endpoint, interval)] *)
Definition setup_health_check (inst : instance) (ep : string) (itv : Z)
    (now : datetime) : instance * setup_result :=
  match inst with
  | State self =>
      (State (setup_health_check self ep itv now).1,
       (setup_health_check self ep itv now).2)
  | NoState => (NoState, SetupError (no_attribute "health_checks"))
  end.

(** [route_traffic(source, target, weight)].  The guarded block of the mode
    with real clients is [pass], so with the state both modes return the
    success shape; [rule_id] is the length of the table after the append. *)
Definition route_traffic (inst : instance) (source tgt : string) (w : Z)
    : instance * route_result :=
  match inst with
  | State self =>
      let self' := route_traffic self source tgt w in
      let w := Z.max 0 (Z.min 100 w) in
      (State self',
       RouteSuccess
         ("Traffic routing configured: " +:+ pretty w +:+ "% from " +:+ source
            +:+ " to " +:+ tgt)
         (Z.of_nat (length (traffic_rules self')))
         (mkTrafficRule source tgt w None))
  | NoState => (NoState, RouteError (no_attribute "traffic_rules"))
  end.

(** [get_status(target)]: the result of the generic handler has the shape
    of the result for a target without match. *)
Definition get_status (inst : instance) (tgt : option string)
    (now : datetime) : status_result :=
  match inst with
  | State self => get_status self tgt now
  | NoState => StatusError (no_attribute "health_checks")
  end.

(** [clear_all()] *)
Definition clear_all (inst : instance) : instance * clear_result :=
  match inst with
  | State self =>
      (State (clear_all self),
       ClearSuccess "All configurations cleared and system reset")
  | NoState => (NoState, ClearError (no_attribute "health_checks"))
  end.

End AWSTrafficController.

(** The answer of the handler of [/api/alerts]: status 200 with the alerts
    and their total, or status 500 with the text of the exception.  The
    ['timestamp'] of the answer and the conversion of the timestamps of the
    alerts to ISO strings are left out. *)
Inductive alerts_response :=
  | AlertsOK (alerts : list alert) (total_alerts : Z)
  | AlertsError (error : string).

Definition http_status (r : alerts_response) : Z :=
  match r with
  | AlertsOK _ _ => 200
  | AlertsError _ => 500
  end.

(** [get_alerts()] on the controller object of the module:
    [traffic_controller.alerts[-50:]] and [len(traffic_controller.alerts)]. *)
Definition get_alerts (traffic_controller : instance) : alerts_response :=
  match traffic_controller with
  | State self =>
      AlertsOK (drop (length (alerts self) - 50)%nat (alerts self))
               (Z.of_nat (length (alerts self)))
  | NoState => AlertsError (no_attribute "alerts")
  end.

(** * Notions used in the statements *)

(** The dictionary of an endpoint after a probe with outcome [o], as
    [probe_endpoint] leaves it in the store ([health_checks_probe]). *)
Definition probed (hd : health_data) (now : datetime) (o : outcome) : health_data :=
  match o with
  | Response status_code rt =>
      if status_code =? expected_status (config hd) then
        set_last_check (on_success hd rt) now
      else
        let hd1 :=
          set_last_error (set_failures hd (failures hd + 1))
                         ("HTTP " +:+ pretty status_code) in
        if failures hd1 >=? failure_threshold (config hd) then
          set_last_check (set_status hd1 "unhealthy") now
        else
          set_last_check (set_status hd1 "degraded") now
  | RaiseTimeout => on_exception hd "timeout" "Request timeout"
  | RaiseConnectionError => on_exception hd "connection_error" "Connection failed"
  | RaiseException message => on_exception hd "error" message
  end.

(** [P] holds of every record of the store. *)
Definition store_inv (P : string → health_data → Prop) (self : controller) : Prop :=
  ∀ ep hd, health_checks self !! ep = Some hd → P ep hd.

(** A record whose status is ['initializing'] or ['healthy'] has no
    consecutive failure, and the counters are never negative. *)
Definition counters_ok (hd : health_data) : Prop :=
  (status hd = "healthy" ∨ status hd = "initializing" → failures hd = 0) ∧
  0 ≤ failures hd ∧ 0 ≤ success_count hd.

(** The four kinds of failing probe. *)
Inductive failure_kind := UnexpectedStatus | Timeout | ConnectionFailed | OtherError.

Definition failing (cfg : HealthCheck) (k : failure_kind) (o : outcome) : Prop :=
  match k, o with
  | UnexpectedStatus, Response status_code _ => status_code ≠ expected_status cfg
  | Timeout, RaiseTimeout => True
  | ConnectionFailed, RaiseConnectionError => True
  | OtherError, RaiseException _ => True
  | _, _ => False
  end.

Definition failure_state (k : failure_kind) : string :=
  match k with
  | UnexpectedStatus => "unhealthy"
  | Timeout => "timeout"
  | ConnectionFailed => "connection_error"
  | OtherError => "error"
  end.

(** Probes of [ep] made one after the other, each with its clock reading. *)
Definition probes (self : controller) (ep : string)
    (l : list (datetime * outcome)) : controller :=
  fold_left
    (λ self p,
       match health_checks self !! ep with
       | Some hd => probe_endpoint self ep hd p.1 p.2
       | None => self
       end)
    l self.

(** Where a run of failures starts: a record that is ['initializing'] or
    ['healthy'], with no consecutive failure. *)
Definition run_start (hd : health_data) : Prop :=
  (status hd = "initializing" ∨ status hd = "healthy") ∧ failures hd = 0.

(** The status the code gives after the [n]-th failure of a run. *)
Definition status_after (cfg : HealthCheck) (k : failure_kind) (n : Z) : string :=
  match k with
  | UnexpectedStatus =>
      if n <? failure_threshold cfg then "degraded" else "unhealthy"
  | _ => failure_state k
  end.

(** The status the threshold rule asks for after the [n]-th failure of a
    run: below the threshold ['degraded'] (['initializing'] is tolerated on
    the first probe), from the threshold on the failure state. *)
Definition threshold_rule (cfg : HealthCheck) (k : failure_kind) (n : Z)
    (st : string) : Prop :=
  if n <? failure_threshold cfg
  then st = "degraded" ∨ (n = 1 ∧ st = "initializing")
  else st = failure_state k.

(** The controller after the registration of [api.example.com]. *)
Definition registered (mock : bool) : controller :=
  (setup_health_check (init_controller mock) "api.example.com" 30 0).1.

(** The scenario of C2: registration of [api.example.com], then three visits
    of the loop whose probe fails to connect. *)
Definition connection_scenario (mock : bool) : controller :=
  run (init_controller mock)
      [Setup "api.example.com" 30 0;
       Visit "https://api.example.com" 1000000 RaiseConnectionError;
       Visit "https://api.example.com" 3000000 RaiseConnectionError;
       Visit "https://api.example.com" 5000000 RaiseConnectionError].

(** Some endpoint other than [failed] is healthy. *)
Definition healthy_alternative (self : controller) (failed : string) : Prop :=
  ∃ ep d, ep ≠ failed ∧ health_checks self !! ep = Some d ∧ status d = "healthy".

(** Two registered endpoints, the second one probed with success. *)
Definition two_endpoints : controller :=
  run (init_controller true)
      [Setup "a.example" 30 0; Setup "b.example" 30 0;
       Visit "https://b.example" 1000000 (Response 200 (S754_zero false))].

(** [n] visits of [ep], 30 seconds apart, each answered with status 500. *)
Definition failing_visits (ep : string) (n : nat) : list event :=
  map (λ i : nat, Visit ep (Z.of_nat i * 30000000) (Response 500 (S754_zero false)))
      (seq 1 n).

(** The alerts of the last hour in the words of the specification: those
    whose timestamp lies within the 3600 seconds before the query. *)
Definition alerts_of_last_hour (self : controller) (now : datetime) : list alert :=
  filter (λ a, 0 ≤ now - alert_timestamp a < 3600 * 1000000) (alerts self).

(** The uptime in the words of the specification: the same computation on
    the lifetime counters [success_count] and [failure_count]. *)
Definition spec_uptime (successes failure_count : Z) : string :=
  if successes + failure_count =? 0 then "N/A"
  else
    match int_true_divide successes (successes + failure_count) with
    | None => "N/A"
    | Some ratio => format_1f (SFmul prec emax ratio float_100) +:+ "%"
    end.

(** A probe that counts as a failure: an unexpected status code or an
    exception. *)
Definition is_failure (cfg : HealthCheck) (o : outcome) : bool :=
  match o with
  | Response status_code _ => negb (status_code =? expected_status cfg)
  | _ => true
  end.

(** The lifetime total of the failing probes of [ep] in a run from [self]:
    the visits of [ep] that were due and whose probe failed. *)
Fixpoint failing_probes (self : controller) (ep : string) (es : list event) : Z :=
  match es with
  | [] => 0
  | e :: es' =>
      match e with
      | Visit ep' now o =>
          match health_checks self !! ep' with
          | Some hd =>
              if bool_decide (ep' = ep) && due hd now && is_failure (config hd) o
              then 1 else 0
          | None => 0
          end
      | _ => 0
      end + failing_probes (step self e) ep es'
  end.

(** A failed probe followed by a successful one. *)
Definition recovery : list event :=
  [Setup "api.example.com" 30 0;
   Visit "https://api.example.com" 30000000 (Response 500 (S754_zero false));
   Visit "https://api.example.com" 60000000 (Response 200 (S754_zero false))].

(** ** Further operations of the controller and of its front end *)

(** The calls that ['total_requests'] counts: the registrations and the
    resets. *)
Definition is_counted_request (e : event) : bool :=
  match e with
  | Setup _ _ _ | Clear => true
  | _ => false
  end.

Fixpoint counted_requests (es : list event) : Z :=
  match es with
  | [] => 0
  | e :: es' => (if is_counted_request e then 1 else 0) + counted_requests es'
  end.

(** The part of the state that a visit of the monitoring loop never
    writes. *)
Definition configuration (self : controller)
    : list TrafficRule * list AutoScaleRule * bool * bool * Z * Z * Z :=
  (traffic_rules self, auto_scale_rules self, monitoring_active self,
   mock_mode self, total_requests (metrics self),
   traffic_routes_created (metrics self), auto_scale_triggers (metrics self)).

(** What the status of a record says about its other entries. *)
Definition record_consistent (hd : health_data) : Prop :=
  0 ≤ failures hd ∧ 0 ≤ success_count hd ∧
  match status hd with
  | "initializing" =>
      failures hd = 0 ∧ success_count hd = 0 ∧ last_check hd = None ∧
      response_time hd = None ∧ last_error hd = None
  | "healthy" =>
      failures hd = 0 ∧ 1 ≤ success_count hd ∧
      is_Some (last_check hd) ∧ is_Some (response_time hd)
  | "degraded" =>
      1 ≤ failures hd < failure_threshold (config hd) ∧
      is_Some (last_check hd) ∧ is_Some (last_error hd)
  | "unhealthy" =>
      1 ≤ failures hd ∧ failure_threshold (config hd) ≤ failures hd ∧
      is_Some (last_check hd) ∧ is_Some (last_error hd)
  | "timeout" => 1 ≤ failures hd ∧ last_error hd = Some "Request timeout"
  | "connection_error" => 1 ≤ failures hd ∧ last_error hd = Some "Connection failed"
  | "error" => 1 ≤ failures hd ∧ is_Some (last_error hd)
  | _ => False
  end.

(** The configuration that registration gives to every endpoint. *)
Definition standard_config (ep : string) (hd : health_data) : Prop :=
  has_scheme ep = true ∧
  endpoint (config hd) = ep ∧
  expected_status (config hd) = 200 ∧
  timeout (config hd) = 10 ∧
  failure_threshold (config hd) = 3.

(** What every alert of the log looks like. *)
Definition alert_well_formed (a : alert) : Prop :=
  alert_type a = "endpoint_unhealthy" ∧
  alert_action_taken a = "failover_attempted" ∧
  (alert_status a = "unhealthy" ∨ alert_status a = "error") ∧
  3 ≤ alert_failures a ∧
  1 ≤ alert_id a ≤ 101 ∧
  has_scheme (alert_endpoint a) = true.

(** The ids of a log never decrease from an entry to a later one. *)
Definition ids_nondecreasing (l : list alert) : Prop :=
  ∀ (i j : nat) (a b : alert),
    (i ≤ j)%nat → l !! i = Some a → l !! j = Some b → alert_id a ≤ alert_id b.

(** What holds of the log in every reachable state. *)
Definition log_ok (l : list alert) : Prop :=
  Forall alert_well_formed l ∧
  ids_nondecreasing l ∧
  Forall (λ a, alert_id a ≤ Z.of_nat (length l) + 1) l.

(** Visits of [ep] with the clock readings and the probe outcomes of [l]. *)
Definition visits (ep : string) (l : list (datetime * outcome)) : list event :=
  map (λ p : datetime * outcome, Visit ep p.1 p.2) l.

(** The probe raises: a timeout, a connection failure or another
    exception. *)
Definition raises (o : outcome) : Prop :=
  match o with
  | Response _ _ => False
  | _ => True
  end.

(** The health-check metrics that a run from [self] must show when they
    start at [s] successes and [f] failures: an expected response adds one
    success, a raised exception adds one failure, a response with an
    unexpected status adds nothing, a visit that is not due adds nothing, and
    a reset puts both back to 0. *)
Fixpoint tally_probes (self : controller) (es : list event) (s f : Z) : Z * Z :=
  match es with
  | [] => (s, f)
  | e :: es' =>
      let '(s', f') :=
        match e with
        | Clear => (0, 0)
        | Visit ep now o =>
            match health_checks self !! ep with
            | Some hd =>
                if due hd now then
                  match o with
                  | Response status_code _ =>
                      if status_code =? expected_status (config hd)
                      then (s + 1, f) else (s, f)
                  | _ => (s, f + 1)
                  end
                else (s, f)
            | None => (s, f)
            end
        | _ => (s, f)
        end in
      tally_probes (step self e) es' s' f'
  end.

(** Example states. *)
Definition configured : controller :=
  run (init_controller true)
      [Setup "api.example.com" 30 0;
       Route "old.example" "new.example" 150;
       Scale "cpu" float_100 "scale_up"].

Definition alerted : controller :=
  run (init_controller true)
      (Setup "api.example.com" 30 0 :: failing_visits "https://api.example.com" 4).

Definition daily : controller :=
  run (init_controller true)
      [Setup "daily.example" 86400 0;
       Visit "https://daily.example" 1000000 (Response 200 (S754_zero false))].

(** A record is either as registration has left it, with both counters
    at 0, or has been probed, and then its counters add up to 1 or more. *)
Definition probed_or_fresh (hd : health_data) : Prop :=
  (status hd = "initializing" ∧ success_count hd = 0 ∧ failures hd = 0) ∨
  (status hd ≠ "initializing" ∧ 0 ≤ success_count hd ∧ 0 ≤ failures hd ∧
   1 ≤ success_count hd + failures hd).

(** * Properties *)

(** ** Basic facts about the operations *)

Lemma health_checks_store self ep hd :
  health_checks (store self ep hd) = <[ep := hd]> (health_checks self).
Proof. reflexivity. Qed.

Lemma health_checks_handle self ep hd now :
  health_checks (_handle_unhealthy_endpoint self ep hd now) = health_checks self.
Proof. reflexivity. Qed.

Lemma alerts_handle self ep hd now :
  alerts (_handle_unhealthy_endpoint self ep hd now) =
  let l := alerts self ++ [new_alert self ep hd now] in
  if 100 <? Z.of_nat (length l) then last_100 l else l.
Proof. reflexivity. Qed.

Lemma health_checks_probe self ep hd now o :
  health_checks (probe_endpoint self ep hd now o) =
  <[ep := probed hd now o]> (health_checks self).
Proof.
  destruct o as [code rt | | | msg]; cbn [probe_endpoint probed].
  - destruct (code =? _).
    + cbn. by rewrite insert_insert_eq.
    + cbv zeta. destruct (_ >=? _).
      * rewrite health_checks_store, health_checks_handle, health_checks_store.
        by rewrite insert_insert_eq.
      * reflexivity.
  - reflexivity.
  - reflexivity.
  - cbv zeta. destruct (_ >=? _); reflexivity.
Qed.

Lemma health_checks_monitor self ep now o :
  health_checks (monitor_endpoint self ep now o) =
  match health_checks self !! ep with
  | Some hd => if due hd now then <[ep := probed hd now o]> (health_checks self)
               else health_checks self
  | None => health_checks self
  end.
Proof.
  unfold monitor_endpoint. destruct (_ !! _) as [hd|]; [|done].
  destruct (due hd now); [|done]. apply health_checks_probe.
Qed.

Lemma health_checks_setup self ep itv now :
  health_checks (setup_health_check self ep itv now).1 =
  <[normalize_endpoint ep := fresh_health_data (normalize_endpoint ep) itv now]>
    (health_checks self).
Proof. reflexivity. Qed.

(** An invariant of the store that every operation preserves holds in every
    reachable state. *)
Section StoreInvariant.
Variable P : string → health_data → Prop.
Hypothesis P_fresh : ∀ ep itv now,
  P (normalize_endpoint ep) (fresh_health_data (normalize_endpoint ep) itv now).
Hypothesis P_probed : ∀ ep hd now o, P ep hd → P ep (probed hd now o).

Lemma store_inv_step self e : store_inv P self → store_inv P (step self e).
Proof using P_fresh P_probed.
  intros Hinv. destruct e as [ep itv now | ep now o | | | ]; cbn [step];
    intros k hd'.
  - rewrite health_checks_setup, lookup_insert.
    case_decide; [intros [= <-]; subst k; apply P_fresh | apply Hinv].
  - rewrite health_checks_monitor.
    destruct (health_checks self !! ep) as [hd|] eqn:Hep; [|apply Hinv].
    destruct (due hd now); [|apply Hinv].
    rewrite lookup_insert.
    case_decide; [intros [= <-]; subst k; eauto | apply Hinv].
  - apply Hinv.
  - apply Hinv.
  - cbn. by rewrite lookup_empty.
Qed.

Lemma store_inv_run es : ∀ self, store_inv P self → store_inv P (run self es).
Proof using P_fresh P_probed.
  induction es as [|e es IH]; intros self Hinv; [done|].
  cbn. apply IH, store_inv_step, Hinv.
Qed.

Lemma store_inv_reachable self : reachable self → store_inv P self.
Proof using P_fresh P_probed.
  intros (mock & es & ->). apply store_inv_run.
  intros ep hd. cbn. by rewrite lookup_empty.
Qed.
End StoreInvariant.

(** ** Facts that hold in every reachable state *)

Lemma counters_ok_fresh ep itv now : counters_ok (fresh_health_data ep itv now).
Proof. split; [done | cbn; lia]. Qed.

Lemma counters_ok_probed hd now o : counters_ok hd → counters_ok (probed hd now o).
Proof.
  intros (Hst & Hf & Hs).
  destruct o as [code rt | | | msg]; cbn [probed].
  - destruct (code =? _).
    + split; [done | cbn; lia].
    + cbv zeta. destruct (_ >=? _); (split; [|cbn; lia]);
        cbn; intros [H | H]; discriminate H.
  - split; [|cbn; lia]. cbn; intros [H | H]; discriminate H.
  - split; [|cbn; lia]. cbn; intros [H | H]; discriminate H.
  - split; [|cbn; lia]. cbn; intros [H | H]; discriminate H.
Qed.

Lemma reachable_counters_ok self ep hd :
  reachable self → health_checks self !! ep = Some hd → counters_ok hd.
Proof.
  intros Hr. revert ep hd.
  apply (store_inv_reachable (λ _ hd, counters_ok hd)); [| |done].
  - intros; apply counters_ok_fresh.
  - intros; by apply counters_ok_probed.
Qed.

Lemma has_scheme_normalize ep : has_scheme (normalize_endpoint ep) = true.
Proof.
  unfold normalize_endpoint. destruct (has_scheme ep) eqn:H; [done|].
  unfold has_scheme. apply orb_true_iff. right. simpl. by destruct ep.
Qed.

Lemma normalize_endpoint_id ep : has_scheme ep = true → normalize_endpoint ep = ep.
Proof. unfold normalize_endpoint. by intros ->. Qed.

(** Every key of the store carries a scheme, as registration is the only
    writer of new keys. *)
Lemma reachable_has_scheme self ep hd :
  reachable self → health_checks self !! ep = Some hd → has_scheme ep = true.
Proof.
  intros Hr. revert ep hd.
  apply (store_inv_reachable (λ ep _, has_scheme ep = true)); [| |done].
  - intros; apply has_scheme_normalize.
  - done.
Qed.

(** ** The healthy state and the failure counter *)

(** C3.  In every state the controller reaches from its initial state,
    through any sequence of registrations, visits of the monitoring loop with
    any probe outcomes, rule creations and resets, an endpoint whose status is
    ['healthy'] has its consecutive-failure counter ['failures'] at 0. *)
Theorem healthy_has_no_failures (mock : bool) (es : list event) (ep : string)
    (hd : health_data) :
  health_checks (run (init_controller mock) es) !! ep = Some hd →
  status hd = "healthy" →
  failures hd = 0.
Proof.
  intros Hep Hst.
  destruct (reachable_counters_ok (run (init_controller mock) es) ep hd) as [H _];
    [by exists mock, es | done | auto].
Qed.

Lemma healthy_has_no_failures_witness :
  failures (set_last_check (on_success (fresh_health_data "https://a.example" 30 0)
                                       (S754_zero false)) 5) = 0.
Proof.
  apply (healthy_has_no_failures true
           [Setup "a.example" 30 0; Visit "https://a.example" 5 (Response 200 (S754_zero false))]
           "https://a.example").
  - vm_compute. reflexivity.
  - reflexivity.
Defined.

(** ** Runs of failing probes *)

Lemma reachable_run_start self ep hd :
  reachable self → health_checks self !! ep = Some hd →
  status hd = "initializing" ∨ status hd = "healthy" → run_start hd.
Proof.
  intros Hr Hep Hst. split; [done|].
  destruct (reachable_counters_ok self ep hd Hr Hep) as [H _]. apply H. tauto.
Qed.

Lemma probed_failing cfg k hd now o :
  config hd = cfg → failing cfg k o →
  config (probed hd now o) = cfg ∧
  failures (probed hd now o) = failures hd + 1 ∧
  status (probed hd now o) = status_after cfg k (failures hd + 1).
Proof.
  intros <- Hf.
  destruct k, o as [code rt | | | msg]; cbn in Hf; try done;
    cbn [probed]; try (by repeat split).
  apply Z.eqb_neq in Hf. rewrite Hf. cbv zeta. unfold status_after.
  change (failures (set_last_error (set_failures hd (failures hd + 1))
                                   ("HTTP " +:+ pretty code)))
    with (failures hd + 1).
  rewrite Z.geb_leb.
  destruct (Z.leb_spec (failure_threshold (config hd)) (failures hd + 1));
    destruct (Z.ltb_spec (failures hd + 1) (failure_threshold (config hd)));
    try lia; by repeat split.
Qed.

Lemma probes_failing ep k l :
  ∀ self hd,
    health_checks self !! ep = Some hd →
    l ≠ [] →
    Forall (λ p : datetime * outcome, failing (config hd) k p.2) l →
    ∃ hd', health_checks (probes self ep l) !! ep = Some hd' ∧
           config hd' = config hd ∧
           failures hd' = failures hd + Z.of_nat (length l) ∧
           status hd' = status_after (config hd) k (failures hd + Z.of_nat (length l)).
Proof.
  induction l as [|[now o] l IH]; intros self hd Hep Hne Hall; [done|].
  apply Forall_cons in Hall as [Hf Hall]. cbn in Hf.
  destruct (probed_failing (config hd) k hd now o eq_refl Hf) as (Hc & Hn & Hs).
  unfold probes. cbn [fold_left fst snd]. rewrite Hep.
  fold (probes (probe_endpoint self ep hd now o) ep l).
  assert (Hep' : health_checks (probe_endpoint self ep hd now o) !! ep
                 = Some (probed hd now o))
    by (rewrite health_checks_probe; apply lookup_insert_eq).
  destruct l as [|p l'].
  - exists (probed hd now o). cbn [probes fold_left length].
    repeat split; [done | done | lia | by rewrite Hs].
  - destruct (IH _ _ Hep') as (hd' & H1 & H2 & H3 & H4); [done | by rewrite Hc |].
    exists hd'. split; [done|]. rewrite H2, H3, H4, Hc, Hn.
    replace (failures hd + 1 + Z.of_nat (length (p :: l')))
      with (failures hd + Z.of_nat (length ((now, o) :: p :: l')))
      by (cbn [length]; lia).
    done.
Qed.

(** C1, as the code has it.  Take an endpoint whose record is
    ['initializing'] or ['healthy'] with no consecutive failure, of failure
    threshold T, and probe it n >= 1 times in a row, every probe failing in
    the same way.  For an unexpected status code the status is ['degraded']
    while n < T and ['unhealthy'] from the T-th failure on.  For a timeout, a
    connection failure or another error the status is ['timeout'],
    ['connection_error'] or ['error'] after every failure, the first
    included.  The failure counter is n in all cases. *)
Theorem failing_run_status (self : controller) (ep : string) (hd : health_data)
    (k : failure_kind) (l : list (datetime * outcome)) :
  health_checks self !! ep = Some hd →
  run_start hd →
  l ≠ [] →
  Forall (λ p : datetime * outcome, failing (config hd) k p.2) l →
  ∃ hd', health_checks (probes self ep l) !! ep = Some hd' ∧
         failures hd' = Z.of_nat (length l) ∧
         status hd' =
           match k with
           | UnexpectedStatus =>
               if Z.of_nat (length l) <? failure_threshold (config hd)
               then "degraded" else "unhealthy"
           | Timeout => "timeout"
           | ConnectionFailed => "connection_error"
           | OtherError => "error"
           end.
Proof.
  intros Hep [_ H0] Hne Hall.
  destruct (probes_failing ep k l self hd Hep Hne Hall) as (hd' & H1 & _ & H3 & H4).
  exists hd'. split; [done|]. rewrite H3, H4, H0, Z.add_0_l.
  split; [done|]. by destruct k.
Qed.

Lemma failing_run_status_witness :
  ∃ hd', health_checks
           (probes (registered true) "https://api.example.com"
                   [(1000000, Response 500 (S754_zero false));
                    (31000000, Response 500 (S754_zero false));
                    (61000000, Response 500 (S754_zero false))])
           !! "https://api.example.com" = Some hd' ∧
         failures hd' = 3 ∧ status hd' = "unhealthy".
Proof.
  apply (failing_run_status (registered true) "https://api.example.com"
           (fresh_health_data "https://api.example.com" 30 0) UnexpectedStatus
           [(1000000, Response 500 (S754_zero false));
            (31000000, Response 500 (S754_zero false));
            (61000000, Response 500 (S754_zero false))]).
  - vm_compute. reflexivity.
  - split; [left|]; reflexivity.
  - discriminate.
  - repeat constructor; cbn; lia.
Defined.

(** C1, counterexample.  With the threshold at 3, the first timeout of a
    freshly registered endpoint already gives the status ['timeout'], which
    the threshold rule allows from the third failure only. *)
Lemma timeout_status_before_threshold :
  ∃ hd', health_checks
           (probes (registered true) "https://api.example.com"
                   [(1000000, RaiseTimeout)])
           !! "https://api.example.com" = Some hd' ∧
         failure_threshold (config hd') = 3 ∧
         failures hd' = 1 ∧
         status hd' = "timeout" ∧
         ¬ threshold_rule (config hd') Timeout 1 (status hd').
Proof.
  eexists. split; [vm_compute; reflexivity|].
  repeat split. cbn. intros [H | [_ H]]; discriminate H.
Qed.

(** ** Connection failures and alerts *)

(** The handlers of a timeout and of a connection failure never call
    [_handle_unhealthy_endpoint]: the alert log is left as it is, whatever
    the failure counter. *)
Lemma alerts_probe_no_handler self ep hd now o :
  o = RaiseTimeout ∨ o = RaiseConnectionError →
  alerts (probe_endpoint self ep hd now o) = alerts self.
Proof. by intros [-> | ->]. Qed.

(** C2, on the code.  After the three connection failures the status query
    for [api.example.com] reports ['connection_error'] with [failures = 3],
    as claimed, but the alert log is empty: no alert has been appended, where
    the claim has exactly one. *)
Theorem connection_scenario_no_alert (mock : bool) :
  (∃ results rep,
     get_status (connection_scenario mock) (Some "api.example.com") 6000000
       = TargetStatus "api.example.com" 1 results ∧
     results !! "https://api.example.com" = Some rep ∧
     rep_status rep = "connection_error" ∧
     rep_failures rep = 3) ∧
  alerts (connection_scenario mock) = [].
Proof.
  destruct mock; (split; [|reflexivity]);
    eexists _, _; (split; [vm_compute; reflexivity|]);
    (split; [vm_compute; reflexivity|]); split; reflexivity.
Qed.

(** ** Failover *)

Lemma trigger_failover_true self failed :
  _trigger_failover self failed = true ↔ healthy_alternative self failed.
Proof.
  unfold _trigger_failover, healthy_endpoints, healthy_alternative.
  destruct (filter _ (map_to_list (health_checks self))) as [|[ep d] l] eqn:Hl;
    cbn; split; try done.
  - intros (ep & d & Hne & Hep & Hst). exfalso.
    assert (Hin : (ep, d) ∈ @nil (string * health_data)); [|by inversion Hin].
    rewrite <- Hl. apply list_elem_of_filter. split; [done|].
    by apply elem_of_map_to_list.
  - intros _. exists ep, d.
    assert (Hin : (ep, d) ∈ (ep, d) :: l) by left.
    rewrite <- Hl in Hin. apply list_elem_of_filter in Hin as [[Hst Hne] Hin].
    apply elem_of_map_to_list in Hin. done.
Qed.

Lemma trigger_failover_false self failed :
  _trigger_failover self failed = false ↔ ¬ healthy_alternative self failed.
Proof.
  rewrite <- trigger_failover_true. by destruct (_trigger_failover self failed).
Qed.

(** ** The alert log *)

Lemma last_drop_lt {A} (l : list A) (n : nat) :
  (n < length l)%nat → last (drop n l) = last l.
Proof.
  revert n. induction l as [|x l IH]; intros [|n] Hn; cbn in *; try lia; try done.
  rewrite IH by lia. destruct l; cbn in *; [lia | done].
Qed.

(** What is kept of a log: the whole of it up to 100 entries, its last 100
    entries beyond. *)
Lemma alerts_handle_drop self ep hd now :
  alerts (_handle_unhealthy_endpoint self ep hd now) =
  drop (length (alerts self ++ [new_alert self ep hd now]) - 100)%nat
       (alerts self ++ [new_alert self ep hd now]).
Proof.
  rewrite alerts_handle. cbv zeta.
  destruct (Z.ltb_spec 100 (Z.of_nat (length (alerts self ++ [new_alert self ep hd now]))));
    [done|].
  replace (_ - 100)%nat with 0%nat by lia. done.
Qed.

Lemma length_alerts_handle self ep hd now :
  (length (alerts (_handle_unhealthy_endpoint self ep hd now)) ≤ 100)%nat.
Proof. rewrite alerts_handle_drop, length_drop. lia. Qed.

(** C5.  [_trigger_failover] returns [True] when an endpoint other than the
    failed one is healthy.  When none is, it returns [False], and
    [_handle_unhealthy_endpoint] appends exactly one alert, which carries
    [failover_success = False]: the new log is the old one followed by that
    alert, cut to its last 100 entries. *)
Theorem failover_outcome (self : controller) (failed : string)
    (hd : health_data) (now : datetime) :
  (healthy_alternative self failed → _trigger_failover self failed = true) ∧
  (¬ healthy_alternative self failed →
   _trigger_failover self failed = false ∧
   ∃ a, alert_failover_success a = false ∧
        alert_endpoint a = failed ∧
        alerts (_handle_unhealthy_endpoint self failed hd now) =
          drop (length (alerts self ++ [a]) - 100)%nat (alerts self ++ [a]) ∧
        last (alerts (_handle_unhealthy_endpoint self failed hd now)) = Some a ∧
        ((length (alerts self) < 100)%nat →
         alerts (_handle_unhealthy_endpoint self failed hd now) = alerts self ++ [a])).
Proof.
  split; [apply trigger_failover_true|].
  intros Hno. apply trigger_failover_false in Hno. split; [done|].
  exists (new_alert self failed hd now).
  split; [exact Hno|]. split; [done|]. split; [apply alerts_handle_drop|].
  rewrite alerts_handle_drop. split.
  - rewrite last_drop_lt; [apply last_snoc|]. rewrite length_app. cbn. lia.
  - intros Hlt. rewrite length_app. cbn.
    replace (_ - 100)%nat with 0%nat by lia. done.
Qed.

(** C6.  After [_handle_unhealthy_endpoint], the one operation that appends
    to the alert log, the log holds at most 100 entries, and it consists of
    the last entries, in insertion order, of the old log followed by the new
    alert: what is dropped is dropped from the front. *)
Theorem alert_log_bounded (self : controller) (ep : string) (hd : health_data)
    (now : datetime) :
  let l := alerts self ++ [new_alert self ep hd now] in
  let l' := alerts (_handle_unhealthy_endpoint self ep hd now) in
  (length l' ≤ 100)%nat ∧
  l' = drop (length l - 100)%nat l ∧
  length l' = Nat.min (length l) 100 ∧
  ∃ evicted, l = evicted ++ l'.
Proof.
  cbv zeta. split; [apply length_alerts_handle|].
  split; [apply alerts_handle_drop|].
  rewrite alerts_handle_drop. split; [rewrite length_drop; lia|].
  eexists. symmetry. apply take_drop.
Qed.

Lemma failover_outcome_witness :
  _trigger_failover two_endpoints "https://a.example" = true ∧
  (_trigger_failover (registered true) "https://api.example.com" = false ∧
   ∃ a, alert_failover_success a = false ∧
        alert_endpoint a = "https://api.example.com" ∧
        alerts (_handle_unhealthy_endpoint (registered true) "https://api.example.com"
                  (fresh_health_data "https://api.example.com" 30 0) 7) =
          drop (length (alerts (registered true) ++ [a]) - 100)%nat
               (alerts (registered true) ++ [a]) ∧
        last (alerts (_handle_unhealthy_endpoint (registered true) "https://api.example.com"
                        (fresh_health_data "https://api.example.com" 30 0) 7)) = Some a ∧
        ((length (alerts (registered true)) < 100)%nat →
         alerts (_handle_unhealthy_endpoint (registered true) "https://api.example.com"
                   (fresh_health_data "https://api.example.com" 30 0) 7) =
         alerts (registered true) ++ [a])).
Proof.
  split.
  - apply (failover_outcome two_endpoints "https://a.example"
             (fresh_health_data "https://a.example" 30 0) 7).
    exists "https://b.example". eexists.
    split; [discriminate|]. split; [vm_compute; reflexivity | reflexivity].
  - apply (failover_outcome (registered true) "https://api.example.com"
             (fresh_health_data "https://api.example.com" 30 0) 7).
    apply trigger_failover_false. vm_compute. reflexivity.
Defined.

(** The bound holds in every state the controller reaches. *)
Lemma length_alerts_probe self ep hd now o :
  (length (alerts self) ≤ 100)%nat →
  (length (alerts (probe_endpoint self ep hd now o)) ≤ 100)%nat.
Proof.
  intros H. destruct o as [code rt | | | msg]; cbn [probe_endpoint]; try done.
  - destruct (code =? _); [done|]. cbv zeta.
    destruct (_ >=? _); [|done]. apply length_alerts_handle.
  - cbv zeta. destruct (_ >=? _); [|done]. apply length_alerts_handle.
Qed.

Lemma length_alerts_step self e :
  (length (alerts self) ≤ 100)%nat → (length (alerts (step self e)) ≤ 100)%nat.
Proof.
  intros H. destruct e as [ep itv now | ep now o | | | ]; cbn [step]; try done.
  - unfold monitor_endpoint. destruct (_ !! _) as [hd|]; [|done].
    destruct (due hd now); [|done]. by apply length_alerts_probe.
  - cbn. lia.
Qed.

Lemma length_alerts_run es :
  ∀ self, (length (alerts self) ≤ 100)%nat → (length (alerts (run self es)) ≤ 100)%nat.
Proof.
  induction es as [|e es IH]; intros self H; [done|].
  cbn. by apply IH, length_alerts_step.
Qed.

Lemma reachable_alerts_bounded self :
  reachable self → (length (alerts self) ≤ 100)%nat.
Proof. intros (mock & es & ->). apply length_alerts_run. cbn. lia. Qed.

(** ** Alert ids *)

(** Once the log is full, every new alert gets the id 101 and the log stays
    full. *)
Lemma alert_id_full_log self ep hd now :
  length (alerts self) = 100%nat →
  alert_id (new_alert self ep hd now) = 101 ∧
  length (alerts (_handle_unhealthy_endpoint self ep hd now)) = 100%nat.
Proof.
  intros H. split; [cbn; lia|].
  rewrite alerts_handle_drop, length_drop, length_app. cbn. lia.
Qed.

(** C7, on the code.  An endpoint registered with threshold 3 that answers
    500 to 104 probes in a row raises 102 alerts.  The last two of them, raised
    at the 103rd and at the 104th probe, both carry the id 101: the id is the
    length of the log plus one, and the log has been cut back to 100 entries
    in between. *)
Theorem alert_id_repeats_after_eviction :
  map (λ a, (alert_id a, alert_timestamp a))
      (drop 98 (alerts (run (registered true)
                            (failing_visits "https://api.example.com" 104))))
  = [(101, 103 * 30000000); (101, 104 * 30000000)].
Proof. vm_compute. reflexivity. Qed.

(** ** Recent alerts *)

Lemma td_seconds_within_day d :
  0 ≤ d < 86400 * 1000000 → td_seconds d = d / 1000000.
Proof.
  intros H. unfold td_seconds. apply Z.mod_small. split.
  - apply Z.div_pos; lia.
  - apply Z.div_lt_upper_bound; lia.
Qed.

(** While no alert of the log is older than a day, or stamped after the
    query, the count of the code is the count of the specification. *)
Lemma recent_alerts_within_day self now :
  Forall (λ a, 0 ≤ now - alert_timestamp a < 86400 * 1000000) (alerts self) →
  recent_alerts self now = alerts_of_last_hour self now.
Proof.
  unfold recent_alerts, alerts_of_last_hour.
  induction (alerts self) as [|a l IH]; intros Hall; [done|].
  apply Forall_cons in Hall as [Ha Hall].
  rewrite !filter_cons, IH by done.
  rewrite td_seconds_within_day by done.
  assert (now - alert_timestamp a < 3600 * 1000000 ↔
          (now - alert_timestamp a) / 1000000 < 3600) as Hiff.
  { split; intros H.
    - apply Z.div_lt_upper_bound; lia.
    - destruct (Z.lt_ge_cases (now - alert_timestamp a) (3600 * 1000000)); [done|].
      assert (3600 ≤ (now - alert_timestamp a) / 1000000)
        by (apply Z.div_le_lower_bound; lia).
      lia. }
  repeat case_decide; try done; exfalso; tauto.
Qed.

(** C8, on the code.  An alert is raised 90 seconds after the epoch; the
    status is queried 24 hours and 30 minutes later.  No alert lies within
    the hour before the query, yet [recent_alerts] of the status is 1: of the
    age of an alert the code reads the seconds component only, which is 1800
    here, and drops the day. *)
Theorem day_old_alert_counted_recent :
  let self := run (registered true) (failing_visits "https://api.example.com" 3) in
  let now := 90000000 + 88200 * 1000000 in
  map alert_timestamp (alerts self) = [90000000] ∧
  alerts_of_last_hour self now = [] ∧
  ∃ s, get_status self None now = SystemStatus s ∧ recent_alerts_count s = 1.
Proof.
  cbv zeta. split; [vm_compute; reflexivity|]. split; [vm_compute; reflexivity|].
  eexists. split; [vm_compute; reflexivity | reflexivity].
Qed.

(** ** Registration *)

(** C9, counterexample.  Registration does not validate the identity.
    Whether it answers ['success'] or ['error'] is the same for any two
    strings; on a controller that has its internal state no string is
    answered with ['error']; and the malformed identity [not a url] is
    registered like any other, under [https://not a url]. *)
Lemma registration_does_not_validate :
  (∀ (inst : instance) (ep ep' : string) (itv : Z) (now : datetime),
     setup_result_status (AWSTrafficController.setup_health_check inst ep itv now).2
     = setup_result_status (AWSTrafficController.setup_health_check inst ep' itv now).2) ∧
  (¬ ∃ (self : controller) (ep : string) (itv : Z) (now : datetime),
       setup_result_status
         (AWSTrafficController.setup_health_check (State self) ep itv now).2
       = "error") ∧
  ∃ self',
    AWSTrafficController.setup_health_check (State (init_controller true))
                                            "not a url" 30 0
    = (State self',
       SetupSuccess "Health check configured for https://not a url"
                    "https://not a url" 30 true) ∧
    health_checks self' !! "https://not a url"
    = Some (fresh_health_data "https://not a url" 30 0).
Proof.
  split; [by intros [|self]|]. split.
  - intros (self & ep & itv & now & H). discriminate H.
  - eexists. split; [reflexivity|]. vm_compute. reflexivity.
Qed.

(** C9, as the code has it.  [setup_health_check] does not validate the
    identity: for every string, malformed or not, the outcome depends on the
    controller only.  On a controller that has its internal state it returns
    a result of status ['success'] and creates or replaces the entry of the
    identity, prefixed with [https://] when it has no scheme, leaving the
    other entries alone.  On a controller whose constructor has returned
    before the internal state, it returns a result of status ['error'] for
    every string and creates nothing.  In both cases it returns a structured
    result and raises nothing. *)
Theorem registration_outcome (inst : instance) (ep : string) (itv : Z)
    (now : datetime) :
  match inst with
  | State self =>
      ∃ self' message active,
        AWSTrafficController.setup_health_check inst ep itv now
        = (State self', SetupSuccess message (normalize_endpoint ep) itv active) ∧
        setup_result_status
          (AWSTrafficController.setup_health_check inst ep itv now).2 = "success" ∧
        has_scheme (normalize_endpoint ep) = true ∧
        health_checks self' !! normalize_endpoint ep
        = Some (fresh_health_data (normalize_endpoint ep) itv now) ∧
        ∀ k, k ≠ normalize_endpoint ep →
             health_checks self' !! k = health_checks self !! k
  | NoState =>
      AWSTrafficController.setup_health_check inst ep itv now
      = (NoState, SetupError (no_attribute "health_checks")) ∧
      setup_result_status
        (AWSTrafficController.setup_health_check inst ep itv now).2 = "error"
  end.
Proof.
  destruct inst as [|self]; [by split|].
  eexists _, _, _. split; [reflexivity|]. split; [done|].
  split; [apply has_scheme_normalize|].
  rewrite health_checks_setup. split; [apply lookup_insert_eq|].
  intros k Hk. by apply lookup_insert_ne.
Qed.

(** C10.  Registering again an identity that the store of a controller
    already holds replaces its whole record by a fresh one: the status is
    ['initializing'], [success_count] and [failures] are 0, [last_check] is
    unset and [created_at] is the time of the new registration; the response
    time and the error text of the old record are gone as well. *)
Theorem reregistration_is_fresh_start (self : controller) (ep : string)
    (old : health_data) (itv : Z) (now : datetime) :
  reachable self →
  health_checks self !! ep = Some old →
  ∃ hd, health_checks (setup_health_check self ep itv now).1 !! ep = Some hd ∧
        hd = fresh_health_data ep itv now ∧
        status hd = "initializing" ∧
        success_count hd = 0 ∧
        failures hd = 0 ∧
        last_check hd = None ∧
        created_at hd = now ∧
        response_time hd = None ∧
        last_error hd = None ∧
        interval (config hd) = itv.
Proof.
  intros Hr Hep. exists (fresh_health_data ep itv now).
  split; [|by repeat split].
  rewrite health_checks_setup.
  rewrite (normalize_endpoint_id ep) by (eapply reachable_has_scheme; eauto).
  apply lookup_insert_eq.
Qed.

Lemma reregistration_is_fresh_start_witness :
  ∃ hd, health_checks (setup_health_check two_endpoints "https://b.example" 60 9000000).1
          !! "https://b.example" = Some hd ∧
        hd = fresh_health_data "https://b.example" 60 9000000 ∧
        status hd = "initializing" ∧
        success_count hd = 0 ∧
        failures hd = 0 ∧
        last_check hd = None ∧
        created_at hd = 9000000 ∧
        response_time hd = None ∧
        last_error hd = None ∧
        interval (config hd) = 60.
Proof.
  apply (reregistration_is_fresh_start two_endpoints "https://b.example"
           (set_last_check (on_success (fresh_health_data "https://b.example" 30 0)
                                       (S754_zero false)) 1000000)).
  - exists true. eexists. reflexivity.
  - vm_compute. reflexivity.
Defined.

(** ** Uptime *)

(** Some values of the uptime. *)
Example uptime_1_0 :
  _calculate_uptime (set_success_count (fresh_health_data "e" 30 0) 1) = "100.0%".
Proof. vm_compute. reflexivity. Qed.
Example uptime_2_1 :
  _calculate_uptime (set_failures (set_success_count (fresh_health_data "e" 30 0) 2) 1) = "66.7%".
Proof. vm_compute. reflexivity. Qed.
Example uptime_1_15 :
  _calculate_uptime (set_failures (set_success_count (fresh_health_data "e" 30 0) 1) 15) = "6.2%".
Proof. vm_compute. reflexivity. Qed.
Example uptime_3_13 :
  _calculate_uptime (set_failures (set_success_count (fresh_health_data "e" 30 0) 3) 13) = "18.8%".
Proof. vm_compute. reflexivity. Qed.
Example uptime_1_1999 :
  _calculate_uptime (set_failures (set_success_count (fresh_health_data "e" 30 0) 1) 1999) = "0.1%".
Proof. vm_compute. reflexivity. Qed.

(** *** The division of the counters does not overflow *)

Lemma Zdigits2_log2 p : Zpos (digits2_pos p) = Z.log2 (Zpos p) + 1.
Proof.
  induction p as [p IH | p IH |]; [| |done].
  - cbn [digits2_pos]. rewrite Pos2Z.inj_succ, IH.
    change (Z.log2 (Zpos p~1)) with (Zpos (Pos.size p)).
    destruct p; cbn in *; lia.
  - cbn [digits2_pos]. rewrite Pos2Z.inj_succ, IH.
    change (Z.log2 (Zpos p~0)) with (Zpos (Pos.size p)).
    destruct p; cbn in *; lia.
Qed.

Lemma Zdigits2_nonneg m : 0 ≤ Zdigits2 m.
Proof. destruct m; cbn; lia. Qed.

Lemma Zdigits2_le_pow2 m k : 0 ≤ m < 2 ^ k → 0 ≤ k → Zdigits2 m ≤ k.
Proof.
  intros [H0 Hlt] Hk. destruct m as [|p|p]; [done| |lia].
  cbn [Zdigits2]. rewrite Zdigits2_log2.
  apply Z.log2_lt_pow2 in Hlt; lia.
Qed.

Lemma Zdigits2_mono a b : 0 < a ≤ b → Zdigits2 a ≤ Zdigits2 b.
Proof.
  intros [Ha Hab]. destruct a as [|p|p]; try lia. destruct b as [|q|q]; try lia.
  cbn [Zdigits2]. rewrite !Zdigits2_log2.
  pose proof (Z.log2_le_mono (Zpos p) (Zpos q) Hab). lia.
Qed.

Lemma shr_1_bounds mrs : 0 ≤ shr_m mrs → 0 ≤ shr_m (shr_1 mrs) ≤ shr_m mrs.
Proof.
  destruct mrs as [m r s]. cbn [shr_m]. intros H.
  destruct m as [|[p|p|]|p]; cbn; lia.
Qed.

Lemma iter_shr_1_bounds p : ∀ mrs,
  0 ≤ shr_m mrs → 0 ≤ shr_m (SpecFloat.iter_pos shr_1 p mrs) ≤ shr_m mrs.
Proof.
  induction p as [p IH | p IH |]; intros mrs H; cbn [SpecFloat.iter_pos].
  - pose proof (shr_1_bounds mrs H) as H1.
    pose proof (IH (shr_1 mrs) (proj1 H1)) as H2.
    pose proof (IH _ (proj1 H2)) as H3. lia.
  - pose proof (IH mrs H) as H2.
    pose proof (IH _ (proj1 H2)) as H3. lia.
  - by apply shr_1_bounds.
Qed.

Lemma shr_record_of_loc_m m l : shr_m (shr_record_of_loc m l) = m.
Proof. by destruct l as [|[]]. Qed.

Lemma shr_fexp_bounds m e l :
  0 ≤ m →
  0 ≤ shr_m (shr_fexp prec emax m e l).1 ≤ m ∧
  ((shr_fexp prec emax m e l).2 = e ∨
   (shr_fexp prec emax m e l).2 = fexp prec emax (Zdigits2 m + e)).
Proof.
  intros Hm. unfold shr_fexp, shr.
  destruct (fexp prec emax (Zdigits2 m + e) - e) as [|p|p] eqn:Hn; cbn [fst snd].
  - rewrite shr_record_of_loc_m. split; [lia | by left].
  - split; [|right; lia].
    pose proof (iter_shr_1_bounds p (shr_record_of_loc m l)) as H.
    rewrite shr_record_of_loc_m in H. by apply H.
  - rewrite shr_record_of_loc_m. split; [lia | by left].
Qed.

Lemma round_nearest_even_bounds m l :
  m ≤ round_nearest_even m l ≤ m + 1.
Proof. destruct l as [|[]]; cbn [round_nearest_even]; [|destruct (Z.even m)| |]; lia. Qed.

Lemma fexp_eq e : fexp prec emax e = Z.max (e - 53) (-1074).
Proof. reflexivity. Qed.

Lemma binary_round_aux_finite sx m k l s :
  0 ≤ m ≤ 2 ^ k → 53 ≤ k ≤ 1074 →
  binary_round_aux prec emax sx m (- k) l ≠ S754_infinity s.
Proof.
  intros [Hm0 Hmk] Hk.
  assert (Hpow : 2 ≤ 2 ^ k)
    by (change 2 with (2 ^ 1) at 1; apply Z.pow_le_mono_r; lia).
  assert (Hpow' : 2 ^ (k + 1) = 2 * 2 ^ k)
    by (rewrite Z.pow_add_r by lia; lia).
  assert (Hd : Zdigits2 m ≤ k + 1) by (apply Zdigits2_le_pow2; lia).
  pose proof (Zdigits2_nonneg m) as Hd0.
  unfold binary_round_aux.
  destruct (shr_fexp_bounds m (- k) l Hm0) as [Hm1 He1].
  destruct (shr_fexp prec emax m (- k) l) as [mrs1 e1]. cbn [fst snd] in Hm1, He1.
  rewrite fexp_eq in He1.
  pose proof (round_nearest_even_bounds (shr_m mrs1) (loc_of_shr_record mrs1)) as Hr.
  set (mr := round_nearest_even (shr_m mrs1) (loc_of_shr_record mrs1)) in *.
  assert (Hmr0 : 0 ≤ mr) by lia.
  assert (Hdr : Zdigits2 mr ≤ k + 1) by (apply Zdigits2_le_pow2; lia).
  pose proof (Zdigits2_nonneg mr) as Hdr0.
  destruct (shr_fexp_bounds mr e1 loc_Exact Hmr0) as [Hm2 He2].
  destruct (shr_fexp prec emax mr e1 loc_Exact) as [mrs2 e2]. cbn [fst snd] in Hm2, He2.
  rewrite fexp_eq in He2.
  destruct (shr_m mrs2); [done| |done].
  destruct (Z.leb_spec e2 (emax - prec)) as [|Hgt]; [done|].
  exfalso. unfold emax, prec in Hgt. lia.
Qed.

Lemma int_true_divide_some a b :
  0 ≤ a ≤ b → 0 < b → ∃ x, int_true_divide a b = Some x.
Proof.
  intros [Ha Hab] Hb. unfold int_true_divide.
  destruct (Z.eqb_spec b 0) as [|_]; [lia|].
  destruct (Z.eqb_spec a 0) as [|Ha0]; [by eexists|].
  rewrite !Z.abs_eq by lia.
  unfold SFdiv_core_binary. cbv zeta.
  pose proof (Zdigits2_mono a b ltac:(lia)) as Hd.
  rewrite fexp_eq.
  set (e' := Z.min _ (0 - 0)).
  assert (He' : -1074 ≤ e' ≤ -53) by (subst e'; lia).
  destruct (0 - 0 - e') as [|p|p] eqn:Hs; [lia| |lia].
  destruct (Z.div_eucl (Z.shiftl a (Z.pos p)) b) as [q r] eqn:Hdiv.
  assert (Hq : q = Z.shiftl a (Z.pos p) / b) by (unfold Z.div; by rewrite Hdiv).
  rewrite Z.shiftl_mul_pow2 in Hq by lia.
  assert (Hp : 0 < 2 ^ Z.pos p) by (apply Z.pow_pos_nonneg; lia).
  assert (Hqb : 0 ≤ q ≤ 2 ^ Z.pos p).
  { subst q. split; [apply Z.div_pos; nia|].
    apply Z.div_le_upper_bound; [lia | nia]. }
  replace e' with (- Z.pos p) by lia.
  pose proof (binary_round_aux_finite (xorb (a <? 0) (b <? 0)) q (Z.pos p)
                (new_location b r)) as Hfin.
  destruct (binary_round_aux _ _ _ _ _ _) as [s|s| |s m e]; try by eexists.
  exfalso. apply (Hfin s); [done | lia | done].
Qed.

Lemma append_percent_not_na s : s +:+ "%" ≠ "N/A".
Proof.
  destruct s as [|a [|b [|c [|d s]]]]; cbn; discriminate.
Qed.

(** C4, on the code.  After one failed and one successful probe the lifetime
    counters are 1 and 1, for which the claim gives 50.0%; the code reports
    100.0%: [_calculate_uptime] adds [failures] to [success_count] as its
    total of checks, and [failures] is the counter of consecutive failures,
    which the successful probe has put back to 0. *)
Lemma uptime_forgets_past_failures :
  ∃ hd, health_checks (run (init_controller true) recovery)
          !! "https://api.example.com" = Some hd ∧
        success_count hd = 1 ∧
        failing_probes (init_controller true) "https://api.example.com" recovery = 1 ∧
        failures hd = 0 ∧
        _calculate_uptime hd = "100.0%" ∧
        spec_uptime (success_count hd)
          (failing_probes (init_controller true) "https://api.example.com" recovery)
        = "50.0%".
Proof.
  eexists. split; [vm_compute; reflexivity|].
  repeat split; vm_compute; reflexivity.
Qed.

(** The uptime of a record with counters that are not negative: ['N/A'] when
    their sum is 0, and otherwise the formatted quotient, whose division does
    not raise. *)
Lemma calculate_uptime_cases hd :
  0 ≤ success_count hd → 0 ≤ failures hd →
  (_calculate_uptime hd = "N/A" ↔ success_count hd + failures hd = 0) ∧
  (success_count hd + failures hd ≠ 0 →
   ∃ ratio,
     int_true_divide (success_count hd) (success_count hd + failures hd) = Some ratio ∧
     _calculate_uptime hd = format_1f (SFmul prec emax ratio float_100) +:+ "%").
Proof.
  intros Hs Hf. unfold _calculate_uptime. cbv zeta.
  destruct (Z.eqb_spec (success_count hd + failures hd) 0) as [H0 | Hne].
  - split; [done | by intros []].
  - destruct (int_true_divide_some (success_count hd) (success_count hd + failures hd))
      as [ratio Hr]; [lia | lia |].
    rewrite Hr. split.
    + split; [|done]. intros H. by apply append_percent_not_na in H.
    + intros _. by exists ratio.
Qed.

(** * Further properties *)

(** ** Runs and what a visit leaves alone *)

Lemma run_app self es1 es2 : run self (es1 ++ es2) = run (run self es1) es2.
Proof. apply fold_left_app. Qed.

Lemma run_cons self e es : run self (e :: es) = run (step self e) es.
Proof. reflexivity. Qed.

(** A property of the initial states that every operation preserves holds in
    every reachable state. *)
Lemma reachable_ind (Q : controller → Prop) :
  (∀ mock, Q (init_controller mock)) →
  (∀ self e, reachable self → Q self → Q (step self e)) →
  ∀ self, reachable self → Q self.
Proof.
  intros Hinit Hstep self (mock & es & ->).
  induction es as [|e es IH] using rev_ind; [apply Hinit|].
  rewrite run_app. cbn. apply Hstep; [by exists mock, es | done].
Qed.

Lemma reachable_step self e : reachable self → reachable (step self e).
Proof.
  intros (mock & es & ->). exists mock, (es ++ [e]). by rewrite run_app.
Qed.

Lemma configuration_probe self ep hd now o :
  configuration (probe_endpoint self ep hd now o) = configuration self.
Proof.
  destruct o as [code rt | | | msg]; cbn [probe_endpoint]; try done.
  - destruct (code =? _); [done|]. cbv zeta. by destruct (_ >=? _).
  - cbv zeta. by destruct (_ >=? _).
Qed.

Lemma configuration_monitor self ep now o :
  configuration (monitor_endpoint self ep now o) = configuration self.
Proof.
  unfold monitor_endpoint. destruct (_ !! _) as [hd|]; [|done].
  destruct (due hd now); [|done]. apply configuration_probe.
Qed.

(** ** Traffic rules and counters *)

(** X1.  On a controller that has its internal state, [route_traffic] never
    rejects a weight: it stores the weight clamped into [0, 100] (the weight
    itself when it lies in that range, 0 below, 100 above), appends the rule
    at the end of the table, and returns a result of status success with, as
    [rule_id], the 1-based position at which the rule is found afterwards.
    On a controller without internal state it stores nothing and returns the
    result of its handler, with the text of the [AttributeError]. *)
Theorem route_traffic_clamps_and_appends (inst : instance)
    (source tgt : string) (w : Z) :
  match inst with
  | State self =>
      ∃ self' message rule_id rule,
        AWSTrafficController.route_traffic inst source tgt w
        = (State self', RouteSuccess message rule_id rule) ∧
        traffic_rules self' = traffic_rules self ++ [rule] ∧
        rule_id = Z.of_nat (length (traffic_rules self)) + 1 ∧
        traffic_rules self' !! Z.to_nat (rule_id - 1) = Some rule ∧
        source_pattern rule = source ∧ target rule = tgt ∧
        0 ≤ weight rule ≤ 100 ∧
        (0 ≤ w ≤ 100 → weight rule = w) ∧
        (w < 0 → weight rule = 0) ∧
        (100 < w → weight rule = 100)
  | NoState =>
      AWSTrafficController.route_traffic inst source tgt w
      = (NoState, RouteError (no_attribute "traffic_rules"))
  end.
Proof.
  destruct inst as [|self]; [done|].
  eexists _, _, _, _. split; [reflexivity|]. split; [reflexivity|].
  split; [cbn; rewrite length_app; cbn; lia|]. split.
  - cbn [route_traffic traffic_rules]. rewrite length_app. cbn [length].
    replace (Z.to_nat _) with (length (traffic_rules self)) by lia.
    by rewrite lookup_app_r, Nat.sub_diag.
  - cbn. repeat split; lia.
Qed.

(** X2.  In every state the controller reaches, every rule of the traffic
    table has a weight between 0 and 100 and no condition, and every
    auto-scaling rule has the cooldown 300. *)
Theorem stored_rules_well_formed (self : controller) :
  reachable self →
  Forall (λ r, 0 ≤ weight r ≤ 100 ∧ condition r = None) (traffic_rules self) ∧
  Forall (λ r, cooldown r = 300) (auto_scale_rules self).
Proof.
  revert self. apply reachable_ind; [by split|].
  intros self e _ [Ht Ha].
  destruct e as [ep itv now | ep now o | source tgt w | m th act | ]; cbn [step].
  - done.
  - pose proof (configuration_monitor self ep now o) as H.
    injection H as -> -> _ _ _ _ _. done.
  - split; [|done]. cbn. apply Forall_app. split; [done|].
    repeat constructor; cbn; lia.
  - split; [done|]. cbn. apply Forall_app. split; [done|]. by repeat constructor.
  - by split.
Qed.

(** X3.  In every state the controller reaches, the metric
    ['traffic_routes_created'] is the number of rules of the traffic table
    and the metric ['auto_scale_triggers'] is the number of auto-scaling
    rules. *)
Theorem rule_metrics_count_rules (self : controller) :
  reachable self →
  traffic_routes_created (metrics self) = Z.of_nat (length (traffic_rules self)) ∧
  auto_scale_triggers (metrics self) = Z.of_nat (length (auto_scale_rules self)).
Proof.
  revert self. apply reachable_ind; [by split|].
  intros self e _ [Ht Ha].
  destruct e as [ep itv now | ep now o | source tgt w | m th act | ]; cbn [step].
  - done.
  - pose proof (configuration_monitor self ep now o) as H.
    injection H as -> -> _ _ _ -> ->. done.
  - cbn. rewrite length_app. cbn. lia.
  - cbn. rewrite length_app. cbn. lia.
  - by split.
Qed.

(** X4.  ['total_requests'] counts the registrations and the resets and
    nothing else: along any run it grows by the number of calls of
    [setup_health_check] and [clear_all]; rule creations and the visits of
    the monitoring loop leave it alone. *)
Theorem total_requests_counts_setups_and_clears (self : controller)
    (es : list event) :
  total_requests (metrics (run self es))
  = total_requests (metrics self) + counted_requests es.
Proof.
  revert self. induction es as [|e es IH]; intros self; [cbn; lia|].
  rewrite run_cons, IH. cbn [counted_requests].
  destruct e as [ep itv now | ep now o | source tgt w | m th act | ];
    cbn [step is_counted_request].
  - cbn. lia.
  - pose proof (configuration_monitor self ep now o) as H.
    injection H as _ _ _ _ -> _ _. lia.
  - cbn. lia.
  - cbn. lia.
  - cbn. lia.
Qed.

(** ** The records of the store *)

Lemma record_consistent_probed hd now o :
  record_consistent hd → record_consistent (probed hd now o).
Proof.
  intros (Hf & Hs & _). unfold record_consistent.
  destruct o as [code rt | | | msg]; cbn [probed].
  - destruct (code =? _).
    + cbn. repeat split; try lia; by eexists.
    + cbv zeta.
      change (failures (set_last_error (set_failures hd (failures hd + 1))
                                       ("HTTP " +:+ pretty code)))
        with (failures hd + 1).
      rewrite Z.geb_leb.
      destruct (Z.leb_spec (failure_threshold (config hd)) (failures hd + 1));
        cbn; repeat split; try lia; by eexists.
  - cbn. repeat split; lia || done.
  - cbn. repeat split; lia || done.
  - cbn. repeat split; try lia. by eexists.
Qed.

Lemma reachable_record_consistent self ep hd :
  reachable self → health_checks self !! ep = Some hd → record_consistent hd.
Proof.
  intros Hr. revert ep hd.
  apply (store_inv_reachable (λ _ hd, record_consistent hd)); [| |done].
  - intros. cbn. repeat split; lia || done.
  - intros. by apply record_consistent_probed.
Qed.

(** X5.  In every state the controller reaches, the status of a record is
    one of the seven statuses and fixes the rest of the record:
    ['initializing'] means never probed (no failure, no success, no check
    time, no response time, no error); ['healthy'] means no consecutive
    failure and at least one success; ['degraded'] means at least one
    consecutive failure and fewer than the threshold; ['unhealthy'] means at
    least the threshold; ['timeout'], ['connection_error'] and ['error'] mean
    at least one consecutive failure, with the error text of the handler. *)
Theorem status_determines_record (self : controller) (ep : string)
    (hd : health_data) :
  reachable self →
  health_checks self !! ep = Some hd →
  record_consistent hd.
Proof. apply reachable_record_consistent. Qed.

Lemma config_probed hd now o : config (probed hd now o) = config hd.
Proof.
  destruct o as [code rt | | | msg]; cbn [probed]; try done.
  destruct (code =? _); [done|]. cbv zeta. by destruct (_ >=? _).
Qed.

Lemma reachable_standard_config self ep hd :
  reachable self → health_checks self !! ep = Some hd → standard_config ep hd.
Proof.
  intros Hr. revert ep hd.
  apply (store_inv_reachable standard_config); [| |done].
  - intros. split; [apply has_scheme_normalize | done].
  - intros ep hd now o H. unfold standard_config. by rewrite config_probed.
Qed.

(** X6.  In every state the controller reaches, every record is stored under
    the identity of its own configuration, which carries a scheme, and its
    configuration expects the status 200, has the timeout 10 and the failure
    threshold 3; of a configuration a registration can only choose the
    interval. *)
Theorem configuration_is_standard (self : controller) (ep : string)
    (hd : health_data) :
  reachable self →
  health_checks self !! ep = Some hd →
  standard_config ep hd.
Proof. apply reachable_standard_config. Qed.

(** ** The alerts of the log *)

(** How a probe changes the alert log: not at all, or by one call of
    [_handle_unhealthy_endpoint], made when the failure counter has reached
    the threshold, on a record that is ['unhealthy'] or ['error']. *)
Lemma alerts_probe_cases self ep hd now o :
  alerts (probe_endpoint self ep hd now o) = alerts self ∨
  ∃ self' hd',
    alerts self' = alerts self ∧
    (status hd' = "unhealthy" ∨ status hd' = "error") ∧
    failures hd' = failures hd + 1 ∧
    failure_threshold (config hd) ≤ failures hd + 1 ∧
    alerts (probe_endpoint self ep hd now o)
    = alerts (_handle_unhealthy_endpoint self' ep hd' now).
Proof.
  destruct o as [code rt | | | msg]; cbn [probe_endpoint]; try (by left).
  - destruct (code =? _); [by left|]. cbv zeta.
    change (failures (set_last_error (set_failures hd (failures hd + 1))
                                     ("HTTP " +:+ pretty code)))
      with (failures hd + 1).
    rewrite Z.geb_leb.
    destruct (Z.leb_spec (failure_threshold (config hd)) (failures hd + 1));
      [|by left].
    right. eexists _, _. split; [|split; [|split; [|split; [done|reflexivity]]]];
      [reflexivity | by left | reflexivity].
  - cbv zeta.
    change (failures (on_exception hd "error" msg)) with (failures hd + 1).
    rewrite Z.geb_leb.
    destruct (Z.leb_spec (failure_threshold (config hd)) (failures hd + 1));
      [|by left].
    right. eexists _, _. split; [|split; [|split; [|split; [done|reflexivity]]]];
      [reflexivity | by right | reflexivity].
Qed.

Lemma ids_nondecreasing_snoc l a :
  ids_nondecreasing l →
  Forall (λ b, alert_id b ≤ alert_id a) l →
  ids_nondecreasing (l ++ [a]).
Proof.
  intros Hl Hle i j x y Hij Hi Hj.
  apply lookup_app_Some in Hi as [Hi | [Hil Hi]];
    apply lookup_app_Some in Hj as [Hj | [Hjl Hj]].
  - eauto.
  - apply list_lookup_singleton_Some in Hj as [_ <-].
    rewrite Forall_forall in Hle. apply Hle. by eapply list_elem_of_lookup_2.
  - apply lookup_lt_Some in Hj. lia.
  - apply list_lookup_singleton_Some in Hi as [_ <-].
    apply list_lookup_singleton_Some in Hj as [_ <-]. lia.
Qed.

Lemma ids_nondecreasing_drop l n :
  ids_nondecreasing l → ids_nondecreasing (drop n l).
Proof.
  intros Hl i j x y Hij Hi Hj. rewrite lookup_drop in Hi, Hj.
  apply (Hl (n + i)%nat (n + j)%nat); [lia | done | done].
Qed.

Lemma log_ok_nil : log_ok [].
Proof.
  repeat split; try by constructor.
  intros i j a b _ Hi. by rewrite lookup_nil in Hi.
Qed.

Lemma log_ok_handle self ep hd now :
  (length (alerts self) ≤ 100)%nat →
  has_scheme ep = true →
  status hd = "unhealthy" ∨ status hd = "error" →
  3 ≤ failures hd →
  log_ok (alerts self) →
  log_ok (alerts (_handle_unhealthy_endpoint self ep hd now)).
Proof.
  intros Hlen Hep Hst Hf (Hwf & Hnd & Hid).
  rewrite alerts_handle_drop.
  set (a := new_alert self ep hd now).
  assert (Ha : alert_id a = Z.of_nat (length (alerts self)) + 1) by done.
  repeat split.
  - apply Forall_drop, Forall_app. split; [done|].
    apply Forall_singleton. unfold alert_well_formed. cbn.
    split; [done|]. split; [done|]. split; [done|]. split; [done|].
    split; [lia | done].
  - apply ids_nondecreasing_drop, ids_nondecreasing_snoc; [done|].
    eapply Forall_impl; [exact Hid|]. intros b Hb. cbn beta in Hb. lia.
  - apply Forall_drop, Forall_app.
    rewrite length_drop, length_app. cbn [length]. split.
    + eapply Forall_impl; [exact Hid|]. intros b Hb. cbn beta in Hb. lia.
    + repeat constructor. lia.
Qed.

Lemma reachable_log_ok self : reachable self → log_ok (alerts self).
Proof.
  revert self. apply reachable_ind.
  - intros mock. apply log_ok_nil.
  - intros self e Hr Hok.
    destruct e as [ep itv now | ep now o | source tgt w | m th act | ];
      cbn [step]; try done.
    + unfold monitor_endpoint.
      destruct (health_checks self !! ep) as [hd|] eqn:Hep; [|done].
      destruct (due hd now); [|done].
      destruct (alerts_probe_cases self ep hd now o)
        as [-> | (self' & hd' & Hal & Hst & Hf & Hth & ->)]; [done|].
      destruct (reachable_standard_config self ep hd Hr Hep) as (Hsch & _ & _ & _ & HT).
      destruct (reachable_counters_ok self ep hd Hr Hep) as (_ & Hf0 & _).
      apply log_ok_handle; rewrite ?Hal; try done.
      * by apply reachable_alerts_bounded.
      * lia.
Qed.

(** X7.  In every state the controller reaches, every alert of the log has
    the type ['endpoint_unhealthy'] and the action ['failover_attempted'],
    names an endpoint that carries a scheme, records the status
    ['unhealthy'] or ['error'] with at least 3 consecutive failures, and has
    an id between 1 and 101. *)
Theorem alerts_are_well_formed (self : controller) :
  reachable self → Forall alert_well_formed (alerts self).
Proof. intros Hr. by destruct (reachable_log_ok self Hr). Qed.

(** X8.  In every state the controller reaches, the ids of the alert log
    never decrease from an entry to a later one, and no id exceeds the length
    of the log plus one. *)
Theorem alert_ids_never_decrease (self : controller) :
  reachable self →
  ids_nondecreasing (alerts self) ∧
  Forall (λ a, alert_id a ≤ Z.of_nat (length (alerts self)) + 1) (alerts self).
Proof. intros Hr. by destruct (reachable_log_ok self Hr) as (_ & ? & ?). Qed.

(** ** When an endpoint is probed *)

(** X9.  Less than a day after the last received response, the endpoint is
    probed again exactly when [interval] seconds or more have passed: a
    visit before that leaves the whole controller unchanged. *)
Theorem due_after_interval (self : controller) (ep : string) (hd : health_data)
    (t now : datetime) (o : outcome) :
  health_checks self !! ep = Some hd →
  last_check hd = Some t →
  0 ≤ now - t < 86400 * 1000000 →
  (due hd now = true ↔ interval (config hd) * 1000000 ≤ now - t) ∧
  (now - t < interval (config hd) * 1000000 →
   monitor_endpoint self ep now o = self).
Proof.
  intros Hep Hlc Hd.
  assert (Hdue : due hd now = true ↔ interval (config hd) * 1000000 ≤ now - t).
  { unfold due. rewrite Hlc, td_seconds_within_day by done.
    rewrite negb_true_iff, Z.ltb_ge. split; intros H.
    - pose proof (Z.mul_div_le (now - t) 1000000). nia.
    - apply Z.div_le_lower_bound; lia. }
  split; [done|]. intros Hlt. unfold monitor_endpoint. rewrite Hep.
  destruct (due hd now); [|done].
  assert (interval (config hd) * 1000000 ≤ now - t) by by apply Hdue. lia.
Qed.

(** X10.  An endpoint registered with an interval of a day or more is never
    probed again once a response has been received: every later visit,
    whatever the clock, leaves the controller unchanged. *)
Theorem interval_of_a_day_stops_probing (self : controller) (ep : string)
    (hd : health_data) (t now : datetime) (o : outcome) :
  health_checks self !! ep = Some hd →
  last_check hd = Some t →
  86400 ≤ interval (config hd) →
  due hd now = false ∧ monitor_endpoint self ep now o = self.
Proof.
  intros Hep Hlc Hi.
  assert (Hdue : due hd now = false).
  { unfold due. rewrite Hlc, negb_false_iff, Z.ltb_lt. unfold td_seconds.
    pose proof (Z.mod_pos_bound ((now - t) / 1000000) 86400). lia. }
  split; [done|]. unfold monitor_endpoint. by rewrite Hep, Hdue.
Qed.

Lemma probed_raises hd now o :
  raises o →
  last_check (probed hd now o) = last_check hd ∧
  failures (probed hd now o) = failures hd + 1.
Proof. by destruct o. Qed.

(** X11.  A probe that raises does not postpone the next one.  An endpoint
    that has never answered is probed at every visit of the loop, whatever
    its interval and the clock: after [n] visits whose probes raise, its
    failure counter has grown by [n] and it still has no check time. *)
Theorem raising_probes_are_not_rate_limited (ep : string)
    (l : list (datetime * outcome)) :
  ∀ (self : controller) (hd : health_data),
    health_checks self !! ep = Some hd →
    last_check hd = None →
    Forall (λ p : datetime * outcome, raises p.2) l →
    ∃ hd', health_checks (run self (visits ep l)) !! ep = Some hd' ∧
           last_check hd' = None ∧
           failures hd' = failures hd + Z.of_nat (length l).
Proof.
  induction l as [|[now o] l IH]; intros self hd Hep Hlc Hall.
  - exists hd. cbn. repeat split; [done | done | lia].
  - apply Forall_cons in Hall as [Ho Hall]. cbn in Ho.
    destruct (probed_raises hd now o Ho) as [Hlc' Hf'].
    cbn [visits map]. rewrite run_cons. cbn [step fst snd].
    fold (visits ep l).
    destruct (IH (monitor_endpoint self ep now o) (probed hd now o))
      as (hd' & H1 & H2 & H3); [| congruence | done |].
    + rewrite health_checks_monitor, Hep. unfold due. rewrite Hlc.
      apply lookup_insert_eq.
    + exists hd'. repeat split; [done | done |]. rewrite H3, Hf'.
      cbn [length]. lia.
Qed.

(** ** Alerts along a run of failures *)

Lemma length_alerts_handle_eq self ep hd now :
  (length (alerts self) ≤ 100)%nat →
  Z.of_nat (length (alerts (_handle_unhealthy_endpoint self ep hd now)))
  = Z.min 100 (Z.of_nat (length (alerts self)) + 1).
Proof.
  intros H. rewrite alerts_handle_drop, length_drop, length_app. cbn [length]. lia.
Qed.

Lemma length_alerts_probe_failing self ep hd now o k :
  k = UnexpectedStatus ∨ k = OtherError →
  failing (config hd) k o →
  (length (alerts self) ≤ 100)%nat →
  Z.of_nat (length (alerts (probe_endpoint self ep hd now o)))
  = if failure_threshold (config hd) <=? failures hd + 1
    then Z.min 100 (Z.of_nat (length (alerts self)) + 1)
    else Z.of_nat (length (alerts self)).
Proof.
  intros Hk Hf Hlen.
  destruct Hk as [-> | ->]; destruct o as [code rt | | | msg]; cbn in Hf; try done;
    cbn [probe_endpoint]; cbv zeta.
  - apply Z.eqb_neq in Hf. rewrite Hf.
    change (failures (set_last_error (set_failures hd (failures hd + 1))
                                     ("HTTP " +:+ pretty code)))
      with (failures hd + 1).
    rewrite Z.geb_leb. destruct (_ <=? _); [|done].
    change (alerts (store ?c _ _)) with (alerts c).
    by rewrite length_alerts_handle_eq.
  - change (failures (on_exception hd "error" msg)) with (failures hd + 1).
    rewrite Z.geb_leb. destruct (_ <=? _); [|done].
    by rewrite length_alerts_handle_eq.
Qed.

(** X12.  Alerting is at least once per failure, without suppression: along
    a run of probes that all answer an unexpected status, or all raise an
    exception other than a timeout or a connection failure, every probe that
    brings the failure counter to the threshold or beyond appends one alert.
    After [n] such probes of a record with [f] consecutive failures and
    threshold [T], the log has grown by the number of probes from the
    [T]-th failure on, [max 0 (min n (f + n - T + 1))], up to its bound
    of 100 entries. *)
Theorem alert_for_every_failure_from_threshold (ep : string) (k : failure_kind)
    (l : list (datetime * outcome)) :
  ∀ (self : controller) (hd : health_data),
    k = UnexpectedStatus ∨ k = OtherError →
    health_checks self !! ep = Some hd →
    (length (alerts self) ≤ 100)%nat →
    Forall (λ p : datetime * outcome, failing (config hd) k p.2) l →
    Z.of_nat (length (alerts (probes self ep l)))
    = Z.min 100
        (Z.of_nat (length (alerts self)) +
         Z.max 0 (Z.min (Z.of_nat (length l))
                        (failures hd + Z.of_nat (length l)
                         - failure_threshold (config hd) + 1))).
Proof.
  induction l as [|[now o] l IH]; intros self hd Hk Hep Hlen Hall.
  - cbn. lia.
  - apply Forall_cons in Hall as [Hf Hall]. cbn in Hf.
    destruct (probed_failing (config hd) k hd now o eq_refl Hf) as (Hc & Hn & _).
    unfold probes. cbn [fold_left fst snd]. rewrite Hep.
    fold (probes (probe_endpoint self ep hd now o) ep l).
    rewrite (IH _ (probed hd now o)); [| done | | | by rewrite Hc].
    + rewrite (length_alerts_probe_failing self ep hd now o k) by done.
      rewrite Hc, Hn. cbn [length].
      destruct (Z.leb_spec (failure_threshold (config hd)) (failures hd + 1)); lia.
    + rewrite health_checks_probe. apply lookup_insert_eq.
    + by apply length_alerts_probe.
Qed.

(** ** Status queries *)

Lemma prefix_nil s : String.prefix "" s = true.
Proof. by destruct s. Qed.

Lemma prefix_refl s : String.prefix s s = true.
Proof.
  induction s as [|c s IH]; [done|]. cbn. by destruct (ascii_dec c c).
Qed.

Lemma contains_unfold sub s :
  contains sub s =
  String.prefix sub s ||
  match s with
  | EmptyString => false
  | String _ s' => contains sub s'
  end.
Proof. by destruct s. Qed.

Lemma contains_refl s : contains s s = true.
Proof. by rewrite contains_unfold, prefix_refl. Qed.

Lemma contains_app_l p sub s :
  contains sub s = true → contains sub (p +:+ s) = true.
Proof.
  intros H. induction p as [|c p IH]; [done|].
  change (String c p +:+ s) with (String c (p +:+ s)).
  rewrite contains_unfold, IH. apply orb_true_r.
Qed.

Lemma lower_app s1 s2 : lower (s1 +:+ s2) = lower s1 +:+ lower s2.
Proof.
  induction s1 as [|c s1 IH]; [done|].
  change (lower (String c s1 +:+ s2))
    with (String (lower_ascii c) (lower (s1 +:+ s2))).
  by rewrite IH.
Qed.

Lemma lower_ascii_idemp c : lower_ascii (lower_ascii c) = lower_ascii c.
Proof. destruct c as [[] [] [] [] [] [] [] []]; reflexivity. Qed.

Lemma lower_idemp s : lower (lower s) = lower s.
Proof.
  induction s as [|c s IH]; [done|].
  change (lower (lower (String c s)))
    with (String (lower_ascii (lower_ascii c)) (lower (lower s))).
  by rewrite lower_ascii_idemp, IH.
Qed.

Lemma contains_normalize ep :
  contains (lower ep) (lower (normalize_endpoint ep)) = true.
Proof.
  unfold normalize_endpoint. destruct (has_scheme ep); [apply contains_refl|].
  rewrite lower_app. apply contains_app_l, contains_refl.
Qed.

(** X13.  An endpoint can be queried under the name it was registered with:
    on a controller that has its internal state, for every non-empty
    identity, the status query for that identity made after its registration
    succeeds, with at least one match, and reports the fresh record under the
    normalized identity, status ['initializing'] and uptime ['N/A'].  On a
    controller without internal state the registration has failed and the
    query returns the result of its handler. *)
Theorem registered_endpoint_is_found (inst : instance) (ep : string)
    (itv : Z) (now now' : datetime) :
  ep ≠ "" →
  match inst with
  | State self =>
      ∃ matches results rep,
        AWSTrafficController.get_status
          (AWSTrafficController.setup_health_check inst ep itv now).1
          (Some ep) now'
        = TargetStatus ep matches results ∧
        1 ≤ matches ∧
        results !! normalize_endpoint ep = Some rep ∧
        rep = report (fresh_health_data (normalize_endpoint ep) itv now) ∧
        rep_status rep = "initializing" ∧
        rep_failures rep = 0 ∧
        rep_uptime_percentage rep = "N/A"
  | NoState =>
      AWSTrafficController.get_status
        (AWSTrafficController.setup_health_check inst ep itv now).1
        (Some ep) now'
      = StatusError (no_attribute "health_checks")
  end.
Proof.
  intros Hne. destruct inst as [|self]; [done|].
  destruct ep as [|c t]; [done|].
  cbn [AWSTrafficController.setup_health_check AWSTrafficController.get_status fst].
  unfold get_status. rewrite health_checks_setup.
  set (ep := String c t) in *.
  set (m := filter _ _).
  assert (Hm : m !! normalize_endpoint ep
               = Some (fresh_health_data (normalize_endpoint ep) itv now)).
  { apply map_lookup_filter_Some_2; [apply lookup_insert_eq|].
    cbn [fst]. apply contains_normalize. }
  destruct (decide (m = ∅)) as [He | Hn].
  { rewrite He in Hm. by rewrite lookup_empty in Hm. }
  eexists _, _, _. split; [reflexivity|]. split.
  - apply map_size_non_empty_iff in Hn. lia.
  - split; [by rewrite lookup_fmap, Hm|]. by repeat split.
Qed.

(** X14.  The target of a status query is matched without regard to case:
    two non-empty targets that differ only in the case of their ASCII
    letters either both find nothing, or find the same endpoints with the
    same reports. *)
Theorem status_query_ignores_case (self : controller) (t1 t2 : string)
    (now : datetime) :
  t1 ≠ "" → t2 ≠ "" → lower t1 = lower t2 →
  match get_status self (Some t1) now, get_status self (Some t2) now with
  | TargetStatus _ m1 r1, TargetStatus _ m2 r2 => m1 = m2 ∧ r1 = r2
  | StatusError _, StatusError _ => True
  | _, _ => False
  end.
Proof.
  intros H1 H2 Hl.
  destruct t1 as [|c1 t1]; [done|]. destruct t2 as [|c2 t2]; [done|].
  unfold get_status. rewrite Hl.
  by destruct (decide (_ = ∅)).
Qed.

Lemma size_filter_full {A} (P : string * A → Prop) `{!∀ x, Decision (P x)}
    (m : gmap string A) :
  size (filter P m) = size m ↔ ∀ i x, m !! i = Some x → P (i, x).
Proof.
  split.
  - intros Hs i x Hi.
    assert (Hf : filter P m = m)
      by (apply map_subseteq_size_eq; [apply map_filter_subseteq | lia]).
    rewrite <- Hf in Hi. by apply map_lookup_filter_Some in Hi as [_ ?].
  - intros Hall. by rewrite map_filter_id.
Qed.

(** X15.  On a controller that has its internal state, the status query
    without target returns the system summary, which is ['healthy'] exactly
    when at least one endpoint is registered and every registered endpoint is
    ['healthy'], and ['degraded'] otherwise, in particular when nothing is
    registered; the count of healthy endpoints never exceeds the total, and a
    query with the empty string as target is the query without target.  On a
    controller without internal state both queries return the result of the
    handler and no summary. *)
Theorem overall_status_healthy_iff (inst : instance) (now : datetime) :
  match inst with
  | State self =>
      ∃ s, AWSTrafficController.get_status inst None now = SystemStatus s ∧
           AWSTrafficController.get_status inst (Some "") now = SystemStatus s ∧
           (overall_status s = "healthy" ↔
            health_checks self ≠ ∅ ∧
            ∀ ep hd, health_checks self !! ep = Some hd → status hd = "healthy") ∧
           (overall_status s ≠ "healthy" → overall_status s = "degraded") ∧
           total_endpoints s = Z.of_nat (size (health_checks self)) ∧
           0 ≤ healthy_endpoints_count s ≤ total_endpoints s
  | NoState =>
      AWSTrafficController.get_status inst None now
      = StatusError (no_attribute "health_checks") ∧
      AWSTrafficController.get_status inst (Some "") now
      = StatusError (no_attribute "health_checks")
  end.
Proof.
  destruct inst as [|self]; [by split|].
  eexists. split; [reflexivity|]. split; [reflexivity|].
  cbn [overall_status total_endpoints healthy_endpoints_count].
  set (P := λ kv : string * health_data, status kv.2 = "healthy").
  pose proof (map_subseteq_size _ _ (map_filter_subseteq P (health_checks self))) as Hle.
  pose proof (size_filter_full P (health_checks self)) as Hfull.
  pose proof (map_size_non_empty_iff (health_checks self)) as Hne.
  split; [|split; [|split; [done | lia]]].
  - destruct (Z.eqb_spec (Z.of_nat (size (filter P (health_checks self))))
                         (Z.of_nat (size (health_checks self)))) as [Heq | Hneq];
      destruct (Z.ltb_spec 0 (Z.of_nat (size (health_checks self)))) as [Hpos | Hz];
      cbn [andb]; split; try done.
    + intros _. split; [apply (proj1 Hne); lia|]. intros ep hd Hep.
      apply (proj1 Hfull ltac:(lia) ep hd Hep).
    + intros [Hn _]. pose proof (proj2 Hne Hn). lia.
    + intros [_ Hall]. exfalso. apply Hneq. f_equal. apply Hfull.
      intros i x Hi. exact (Hall i x Hi).
    + intros [Hn _]. pose proof (proj2 Hne Hn). lia.
  - by destruct (_ && _).
Qed.

(** X16.  On a controller that has its internal state, [clear_all] returns
    a result of status success, and the system summary then reports the
    status ['degraded'] with no endpoint, no rule and no recent alert, and
    every metric at zero except ['total_requests'], which has grown by one;
    the switch of the monitoring loop and the mode are kept, and a visit of
    the loop then changes nothing.  On a controller without internal state
    [clear_all] and the query return the results of their handlers. *)
Theorem status_after_clear_all (inst : instance) (now : datetime) :
  match inst with
  | State self =>
      AWSTrafficController.clear_all inst
      = (State (clear_all self),
         ClearSuccess "All configurations cleared and system reset") ∧
      AWSTrafficController.get_status (AWSTrafficController.clear_all inst).1 None now
      = SystemStatus
          {| overall_status := "degraded";
             total_endpoints := 0;
             healthy_endpoints_count := 0;
             traffic_rules_count := 0;
             auto_scale_rules_count := 0;
             sys_monitoring_active := monitoring_active self;
             recent_alerts_count := 0;
             sys_metrics := mkMetrics (total_requests (metrics self) + 1) 0 0 0 0;
             mode := if mock_mode self then "MOCK" else "LIVE";
             endpoints := ∅ |} ∧
      ∀ ep t o, monitor_endpoint (clear_all self) ep t o = clear_all self
  | NoState =>
      AWSTrafficController.clear_all inst
      = (NoState, ClearError (no_attribute "health_checks")) ∧
      AWSTrafficController.get_status (AWSTrafficController.clear_all inst).1 None now
      = StatusError (no_attribute "health_checks")
  end.
Proof.
  destruct inst as [|self]; [by split|].
  split; [reflexivity|]. split.
  - cbn [AWSTrafficController.clear_all AWSTrafficController.get_status fst].
    unfold get_status, clear_all. cbn [health_checks traffic_rules auto_scale_rules
      alerts metrics monitoring_active mock_mode recent_alerts].
    rewrite map_filter_empty, fmap_empty, map_size_empty. reflexivity.
  - intros ep t o. unfold monitor_endpoint. cbn [clear_all health_checks].
    by rewrite lookup_empty.
Qed.

(** ** Uptime of healthy and of failing endpoints *)

Lemma div_eucl_spec a b q r :
  Z.div_eucl a b = (q, r) → q = a / b ∧ r = a mod b.
Proof. intros H. unfold Z.div, Z.modulo. by rewrite H. Qed.

Lemma new_location_exact n : new_location n 0 = loc_Exact.
Proof. unfold new_location. by destruct (Z.even n). Qed.

(** The quotient of a positive integer by itself is the float 1.0. *)
Lemma int_true_divide_self s :
  0 < s → int_true_divide s s = Some (S754_finite false 4503599627370496 (-52)).
Proof.
  intros Hs. unfold int_true_divide.
  destruct (Z.eqb_spec s 0) as [|_]; [lia|].
  rewrite Z.abs_eq by lia. unfold SFdiv_core_binary. cbv zeta.
  replace (Zdigits2 s + 0 - (Zdigits2 s + 0)) with 0 by lia.
  change (Z.min (fexp prec emax 0) (0 - 0)) with (-53).
  change (0 - 0 - -53) with 53.
  destruct (Z.div_eucl (Z.shiftl s 53) s) as [q r] eqn:Hdiv.
  apply div_eucl_spec in Hdiv as [-> ->].
  rewrite Z.shiftl_mul_pow2 by lia.
  rewrite (Z.mul_comm s), Z.div_mul, Z.mod_mul by lia.
  rewrite new_location_exact.
  destruct (s <? 0); reflexivity.
Qed.

Lemma calculate_uptime_full hd :
  failures hd = 0 → 0 < success_count hd → _calculate_uptime hd = "100.0%".
Proof.
  intros Hf Hs. unfold _calculate_uptime. cbv zeta. rewrite Hf, Z.add_0_r.
  destruct (Z.eqb_spec (success_count hd) 0) as [|_]; [lia|].
  by rewrite int_true_divide_self.
Qed.

(** X17.  In every state the controller reaches, an endpoint whose status
    is ['healthy'] is reported with the uptime ['100.0%'], whatever failures
    it had before: its counter of failures is 0 and it has at least one
    success. *)
Theorem healthy_endpoint_reports_full_uptime (self : controller) (ep : string)
    (hd : health_data) :
  reachable self →
  health_checks self !! ep = Some hd →
  status hd = "healthy" →
  _calculate_uptime hd = "100.0%" ∧
  rep_uptime_percentage (report hd) = "100.0%" ∧
  sum_uptime (summary hd) = "100.0%".
Proof.
  intros Hr Hep Hst.
  destruct (reachable_record_consistent self ep hd Hr Hep) as (_ & _ & H).
  rewrite Hst in H. destruct H as (Hf & Hs & _).
  assert (_calculate_uptime hd = "100.0%") by (apply calculate_uptime_full; lia).
  done.
Qed.

(** X18.  An endpoint without any success and with at least one consecutive
    failure is reported with the uptime ['0.0%']. *)
Theorem failing_endpoint_reports_zero_uptime (hd : health_data) :
  success_count hd = 0 →
  0 < failures hd →
  _calculate_uptime hd = "0.0%".
Proof.
  intros Hs Hf. unfold _calculate_uptime. cbv zeta. rewrite Hs, Z.add_0_l.
  destruct (Z.eqb_spec (failures hd) 0) as [|_]; [lia|].
  unfold int_true_divide.
  destruct (Z.eqb_spec (failures hd) 0) as [|_]; [lia|].
  cbn [Z.eqb]. destruct (Z.ltb_spec (failures hd) 0); [lia|]. reflexivity.
Qed.

(** ** The alerts served by the front end *)

(** X19.  When the controller object has its internal state, the handler of
    [/api/alerts] answers with status 200, the most recent alerts of the log,
    in the order of the log and at most 50 of them, the latest alert
    included, and the length of the whole log, which is at most 100 in every
    state the controller reaches.  When the object has no internal state it
    answers with status 500 and the text of the [AttributeError]. *)
Theorem get_alerts_returns_latest (traffic_controller : instance) :
  match traffic_controller with
  | State self =>
      ∃ l total,
        get_alerts traffic_controller = AlertsOK l total ∧
        http_status (get_alerts traffic_controller) = 200 ∧
        length l = Nat.min 50 (length (alerts self)) ∧
        (∃ older, alerts self = older ++ l) ∧
        last l = last (alerts self) ∧
        total = Z.of_nat (length (alerts self)) ∧
        (reachable self → total ≤ 100)
  | NoState =>
      get_alerts traffic_controller = AlertsError (no_attribute "alerts") ∧
      http_status (get_alerts traffic_controller) = 500
  end.
Proof.
  destruct traffic_controller as [|self]; [by split|].
  eexists _, _. split; [reflexivity|]. split; [reflexivity|].
  split; [rewrite length_drop; lia|].
  split; [eexists; symmetry; apply take_drop|]. split.
  - destruct (alerts self) as [|a l] eqn:Hl; [done|].
    apply last_drop_lt. cbn [length]. lia.
  - split; [done|]. intros Hr. pose proof (reachable_alerts_bounded self Hr). lia.
Qed.

(** ** Registering the same endpoint twice *)

Lemma normalize_endpoint_idemp ep :
  normalize_endpoint (normalize_endpoint ep) = normalize_endpoint ep.
Proof. apply normalize_endpoint_id, has_scheme_normalize. Qed.

(** X20.  Two identities with the same normalized form, such as a host name
    and the same name behind [https://], name the same endpoint: registering
    the second after the first leaves the store as the second registration
    alone would, with one record for both, and the number of endpoints grows
    by one exactly when the normalized identity was not yet in the store. *)
Theorem registration_by_normalized_identity (self : controller)
    (ep1 ep2 : string) (itv1 itv2 : Z) (t1 t2 : datetime) :
  normalize_endpoint ep1 = normalize_endpoint ep2 →
  health_checks (setup_health_check (setup_health_check self ep1 itv1 t1).1
                                    ep2 itv2 t2).1
  = health_checks (setup_health_check self ep2 itv2 t2).1 ∧
  size (health_checks (setup_health_check self ep2 itv2 t2).1)
  = (if decide (is_Some (health_checks self !! normalize_endpoint ep2))
     then size (health_checks self)
     else S (size (health_checks self))).
Proof.
  intros Hn. rewrite !health_checks_setup, Hn. split.
  - apply insert_insert_eq.
  - rewrite map_size_insert. case_decide as H.
    + by destruct H as [x ->].
    + destruct (health_checks self !! normalize_endpoint ep2) eqn:E; [|done].
      exfalso. apply H. by eexists.
Qed.

(** ** Health-check metrics and isolation of the endpoints *)

Lemma health_metrics_probe self ep hd now o :
  (successful_health_checks (metrics (probe_endpoint self ep hd now o)),
   failed_health_checks (metrics (probe_endpoint self ep hd now o)))
  = match o with
    | Response status_code _ =>
        if status_code =? expected_status (config hd)
        then (successful_health_checks (metrics self) + 1,
              failed_health_checks (metrics self))
        else (successful_health_checks (metrics self),
              failed_health_checks (metrics self))
    | _ => (successful_health_checks (metrics self),
            failed_health_checks (metrics self) + 1)
    end.
Proof.
  destruct o as [code rt | | | msg]; cbn [probe_endpoint]; try done.
  - destruct (code =? _); [done|]. cbv zeta. by destruct (_ >=? _).
  - cbv zeta. by destruct (_ >=? _).
Qed.

(** X21.  Along every run, ['successful_health_checks'] grows by one with
    each probe answered with the expected status and
    ['failed_health_checks'] by one with each probe that raises (timeout,
    connection failure or other exception); a probe answered with an
    unexpected status changes neither of them, a visit that is not due or
    names no endpoint changes nothing, and [clear_all] puts both back
    to 0. *)
Theorem health_metrics_tally (es : list event) :
  ∀ self : controller,
    (successful_health_checks (metrics (run self es)),
     failed_health_checks (metrics (run self es)))
    = tally_probes self es (successful_health_checks (metrics self))
                   (failed_health_checks (metrics self)).
Proof.
  induction es as [|e es IH]; intros self; [done|].
  rewrite run_cons, IH. cbn [tally_probes].
  destruct e as [ep itv now | ep now o | source tgt w | m th act | ];
    cbn [step]; try done.
  unfold monitor_endpoint.
  destruct (health_checks self !! ep) as [hd|]; [|done].
  destruct (due hd now); [|done].
  by rewrite <- (health_metrics_probe self ep hd now o).
Qed.

(** X22.  A visit of the monitoring loop to an endpoint never adds or
    removes an endpoint and never touches the record of another endpoint;
    of the visited record it keeps the configuration and the time of
    creation. *)
Theorem visit_is_local (self : controller) (ep : string) (now : datetime)
    (o : outcome) :
  dom (health_checks (monitor_endpoint self ep now o)) = dom (health_checks self) ∧
  (∀ ep', ep' ≠ ep →
     health_checks (monitor_endpoint self ep now o) !! ep'
     = health_checks self !! ep') ∧
  (∀ hd, health_checks self !! ep = Some hd →
     ∃ hd', health_checks (monitor_endpoint self ep now o) !! ep = Some hd' ∧
            config hd' = config hd ∧ created_at hd' = created_at hd).
Proof.
  rewrite health_checks_monitor.
  destruct (health_checks self !! ep) as [hd|] eqn:Hep.
  - destruct (due hd now).
    + split; [|split].
      * by apply dom_insert_lookup_L.
      * intros ep' Hne. by rewrite lookup_insert_ne.
      * intros ? [= <-]. exists (probed hd now o).
        split; [apply lookup_insert_eq|]. split; [apply config_probed|].
        destruct o as [code rt | | | msg]; cbn [probed]; try done.
        destruct (code =? _); [done|]. cbv zeta. by destruct (_ >=? _).
    + split; [done|]. split; [done|]. intros ? [= <-]. by exists hd.
  - split; [done|]. split; [done|]. intros ? [=].
Qed.

(** ** Instances *)

Lemma stored_rules_well_formed_witness :
  Forall (λ r, 0 ≤ weight r ≤ 100 ∧ condition r = None) (traffic_rules configured) ∧
  Forall (λ r, cooldown r = 300) (auto_scale_rules configured).
Proof.
  apply (stored_rules_well_formed configured).
  exists true. eexists. reflexivity.
Defined.

Lemma rule_metrics_count_rules_witness :
  traffic_routes_created (metrics configured)
  = Z.of_nat (length (traffic_rules configured)) ∧
  auto_scale_triggers (metrics configured)
  = Z.of_nat (length (auto_scale_rules configured)).
Proof.
  apply (rule_metrics_count_rules configured).
  exists true. eexists. reflexivity.
Defined.

Lemma status_determines_record_witness :
  record_consistent
    (set_last_check (on_success (fresh_health_data "https://b.example" 30 0)
                                (S754_zero false)) 1000000).
Proof.
  apply (status_determines_record two_endpoints "https://b.example").
  - exists true. eexists. reflexivity.
  - vm_compute. reflexivity.
Defined.

Lemma configuration_is_standard_witness :
  standard_config "https://b.example"
    (set_last_check (on_success (fresh_health_data "https://b.example" 30 0)
                                (S754_zero false)) 1000000).
Proof.
  apply (configuration_is_standard two_endpoints "https://b.example").
  - exists true. eexists. reflexivity.
  - vm_compute. reflexivity.
Defined.

Lemma alerts_are_well_formed_witness :
  Forall alert_well_formed (alerts alerted).
Proof.
  apply (alerts_are_well_formed alerted).
  exists true. eexists. reflexivity.
Defined.

Lemma alert_ids_never_decrease_witness :
  ids_nondecreasing (alerts alerted) ∧
  Forall (λ a, alert_id a ≤ Z.of_nat (length (alerts alerted)) + 1) (alerts alerted).
Proof.
  apply (alert_ids_never_decrease alerted).
  exists true. eexists. reflexivity.
Defined.

Lemma due_after_interval_witness :
  (due (set_last_check (on_success (fresh_health_data "https://b.example" 30 0)
                                   (S754_zero false)) 1000000) 11000000 = true
   ↔ 30 * 1000000 ≤ 11000000 - 1000000) ∧
  (11000000 - 1000000 < 30 * 1000000 →
   monitor_endpoint two_endpoints "https://b.example" 11000000 RaiseTimeout
   = two_endpoints).
Proof.
  apply (due_after_interval two_endpoints "https://b.example"
           (set_last_check (on_success (fresh_health_data "https://b.example" 30 0)
                                       (S754_zero false)) 1000000)
           1000000 11000000 RaiseTimeout).
  - vm_compute. reflexivity.
  - reflexivity.
  - lia.
Defined.

Lemma interval_of_a_day_stops_probing_witness :
  due (set_last_check (on_success (fresh_health_data "https://daily.example" 86400 0)
                                  (S754_zero false)) 1000000)
      (1000000 + 90000 * 1000000) = false ∧
  monitor_endpoint daily "https://daily.example" (1000000 + 90000 * 1000000)
                   (Response 500 (S754_zero false)) = daily.
Proof.
  apply (interval_of_a_day_stops_probing daily "https://daily.example"
           (set_last_check (on_success (fresh_health_data "https://daily.example" 86400 0)
                                       (S754_zero false)) 1000000)
           1000000).
  - vm_compute. reflexivity.
  - reflexivity.
  - cbn. lia.
Defined.

Lemma raising_probes_are_not_rate_limited_witness :
  ∃ hd', health_checks
           (run (registered true)
                (visits "https://api.example.com"
                        [(1000000, RaiseTimeout); (1000001, RaiseConnectionError)]))
           !! "https://api.example.com" = Some hd' ∧
         last_check hd' = None ∧
         failures hd' = 0 + Z.of_nat 2.
Proof.
  apply (raising_probes_are_not_rate_limited "https://api.example.com"
           [(1000000, RaiseTimeout); (1000001, RaiseConnectionError)]
           (registered true) (fresh_health_data "https://api.example.com" 30 0)).
  - vm_compute. reflexivity.
  - reflexivity.
  - by repeat constructor.
Defined.

Lemma alert_for_every_failure_from_threshold_witness :
  Z.of_nat (length (alerts (probes (registered true) "https://api.example.com"
                                   [(1000000, Response 500 (S754_zero false));
                                    (31000000, Response 500 (S754_zero false));
                                    (61000000, Response 500 (S754_zero false));
                                    (91000000, Response 500 (S754_zero false))])))
  = Z.min 100 (Z.of_nat 0 + Z.max 0 (Z.min (Z.of_nat 4) (0 + Z.of_nat 4 - 3 + 1))).
Proof.
  apply (alert_for_every_failure_from_threshold "https://api.example.com"
           UnexpectedStatus
           [(1000000, Response 500 (S754_zero false));
            (31000000, Response 500 (S754_zero false));
            (61000000, Response 500 (S754_zero false));
            (91000000, Response 500 (S754_zero false))]
           (registered true) (fresh_health_data "https://api.example.com" 30 0)).
  - by left.
  - vm_compute. reflexivity.
  - cbn. lia.
  - repeat constructor; cbn; lia.
Defined.

Lemma registered_endpoint_is_found_witness :
  ∃ matches results rep,
    AWSTrafficController.get_status
      (AWSTrafficController.setup_health_check (State (init_controller true))
                                               "api.example.com" 30 0).1
      (Some "api.example.com") 5000000
    = TargetStatus "api.example.com" matches results ∧
    1 ≤ matches ∧
    results !! normalize_endpoint "api.example.com" = Some rep ∧
    rep = report (fresh_health_data (normalize_endpoint "api.example.com") 30 0) ∧
    rep_status rep = "initializing" ∧
    rep_failures rep = 0 ∧
    rep_uptime_percentage rep = "N/A".
Proof.
  apply (registered_endpoint_is_found (State (init_controller true))
           "api.example.com" 30 0 5000000).
  discriminate.
Defined.

Lemma status_query_ignores_case_witness :
  match get_status (registered true) (Some "API.Example") 5000000,
        get_status (registered true) (Some "api.example") 5000000 with
  | TargetStatus _ m1 r1, TargetStatus _ m2 r2 => m1 = m2 ∧ r1 = r2
  | StatusError _, StatusError _ => True
  | _, _ => False
  end.
Proof.
  apply (status_query_ignores_case (registered true) "API.Example" "api.example");
    [discriminate | discriminate | reflexivity].
Defined.

Lemma healthy_endpoint_reports_full_uptime_witness :
  _calculate_uptime
    (set_last_check (on_success (fresh_health_data "https://b.example" 30 0)
                                (S754_zero false)) 1000000) = "100.0%" ∧
  rep_uptime_percentage
    (report (set_last_check (on_success (fresh_health_data "https://b.example" 30 0)
                                        (S754_zero false)) 1000000)) = "100.0%" ∧
  sum_uptime
    (summary (set_last_check (on_success (fresh_health_data "https://b.example" 30 0)
                                         (S754_zero false)) 1000000)) = "100.0%".
Proof.
  apply (healthy_endpoint_reports_full_uptime two_endpoints "https://b.example").
  - exists true. eexists. reflexivity.
  - vm_compute. reflexivity.
  - reflexivity.
Defined.

Lemma failing_endpoint_reports_zero_uptime_witness :
  _calculate_uptime (set_failures (fresh_health_data "https://a.example" 30 0) 2)
  = "0.0%".
Proof.
  apply (failing_endpoint_reports_zero_uptime
           (set_failures (fresh_health_data "https://a.example" 30 0) 2));
    [reflexivity | cbn; lia].
Defined.

Lemma registration_by_normalized_identity_witness :
  health_checks (setup_health_check
                   (setup_health_check (init_controller true) "api.example.com" 30 0).1
                   "https://api.example.com" 60 5000000).1
  = health_checks (setup_health_check (init_controller true)
                                      "https://api.example.com" 60 5000000).1 ∧
  size (health_checks (setup_health_check (init_controller true)
                                          "https://api.example.com" 60 5000000).1)
  = (if decide (is_Some (health_checks (init_controller true)
                           !! normalize_endpoint "https://api.example.com"))
     then size (health_checks (init_controller true))
     else S (size (health_checks (init_controller true)))).
Proof.
  apply (registration_by_normalized_identity (init_controller true)
           "api.example.com" "https://api.example.com").
  reflexivity.
Defined.

(** ** Endpoints without uptime *)

Lemma probed_or_fresh_probed hd now o :
  probed_or_fresh hd → probed_or_fresh (probed hd now o).
Proof.
  intros H.
  assert (0 ≤ success_count hd ∧ 0 ≤ failures hd) as [Hs Hf]
    by (destruct H as [(_ & -> & ->) | (_ & ? & ? & _)]; lia).
  right. destruct o as [code rt | | | msg]; cbn [probed].
  - destruct (code =? _).
    + cbn. repeat split; lia || done.
    + cbv zeta. destruct (_ >=? _); cbn; repeat split; lia || done.
  - cbn. repeat split; lia || done.
  - cbn. repeat split; lia || done.
  - cbn. repeat split; lia || done.
Qed.

Lemma reachable_probed_or_fresh self ep hd :
  reachable self → health_checks self !! ep = Some hd → probed_or_fresh hd.
Proof.
  intros Hr. revert ep hd.
  apply (store_inv_reachable (λ _ hd, probed_or_fresh hd)); [| |done].
  - intros. by left.
  - intros. by apply probed_or_fresh_probed.
Qed.

(** X23.  In every state the controller reaches, the uptime of an endpoint
    is ['N/A'] exactly when the endpoint is still ['initializing'], that is
    when it has not been probed since its registration, and exactly when
    [success_count + failures] is 0: the division of the counters never
    raises, so the handler of [_calculate_uptime] plays no part. *)
Theorem uptime_na_iff_never_probed (self : controller) (ep : string)
    (hd : health_data) :
  reachable self →
  health_checks self !! ep = Some hd →
  (_calculate_uptime hd = "N/A" ↔ status hd = "initializing") ∧
  (_calculate_uptime hd = "N/A" ↔ success_count hd + failures hd = 0).
Proof.
  intros Hr Hep.
  pose proof (reachable_probed_or_fresh self ep hd Hr Hep) as H.
  assert (0 ≤ success_count hd ∧ 0 ≤ failures hd) as [Hs Hf]
    by (destruct H as [(_ & -> & ->) | (_ & ? & ? & _)]; lia).
  destruct (calculate_uptime_cases hd Hs Hf) as [Hna _].
  split; [|done]. rewrite Hna.
  destruct H as [(Hst & H1 & H2) | (Hst & _ & _ & H1)]; split; intros; try done; lia.
Qed.

Lemma uptime_na_iff_never_probed_witness :
  (_calculate_uptime (fresh_health_data "https://a.example" 30 0) = "N/A"
   ↔ status (fresh_health_data "https://a.example" 30 0) = "initializing") ∧
  (_calculate_uptime (fresh_health_data "https://a.example" 30 0) = "N/A"
   ↔ success_count (fresh_health_data "https://a.example" 30 0)
     + failures (fresh_health_data "https://a.example" 30 0) = 0).
Proof.
  apply (uptime_na_iff_never_probed two_endpoints "https://a.example").
  - exists true. eexists. reflexivity.
  - vm_compute. reflexivity.
Defined.

(** ** The constructor and the object without internal state *)

